(** * iQPuzzle: block handling (CBlock.cpp)

    A shallow embedding of [CBlock] -- the puzzle piece of iQPuzzle -- and of
    the slice of Qt it is written against, followed by the properties of its
    gesture handlers, of the collision check and of grid snapping.

    Conventions.
    - [qreal] (a C++ double) is modelled by an exact rational, and equality
      of shapes is vertex-wise [Qeq].  The model agrees with the program
      where the doubles are exact; a statement that needs more than that
      is made for outlines whose vertices lie on whole cells ([onCells]),
      where every sum and difference the handlers form is a whole number a
      double holds.  What rounding does elsewhere is shown on binary64
      itself, in [Double].
    - [int], [qint32] are 32-bit two's complement; results that leave the
      range are reduced modulo 2^32 ([wrap_int]).  For a conversion from
      [qreal] that leaves the range the program has no defined result (the
      conversion instruction of x86 yields -2^31); statements about such a
      conversion carry the bound that keeps it in range.
    - [qRound] adds 1/2 exactly, where a double rounds the sum; the two
      differ only for an argument within an ulp of a half-integer boundary,
      so the distance a point moves under [snapToGrid] is stated for whole
      pixel coordinates.
    - The argument of [setNewZValue] is a [qint16] in the source and any
      integer here; the handlers pass -1.
    - Every [CBlock *] is an address into a store of blocks; the [QList] a
      block holds is a list of such addresses, so that the aliasing between
      [this] and the entries of the list is kept. *)

From Stdlib Require Import ZArith QArith Qround Qabs Lia Lqa List Bool Floats.
Import ListNotations.

Local Open Scope Z_scope.
Local Open Scope Q_scope.

(* ------------------------------------------------------------------ *)
(** ** Machine numbers *)

Definition qreal := Q.

Definition Qltb (a b : Q) : bool := negb (Qle_bool b a).

(** Reduction of a mathematical integer into the range of a 32-bit [int]. *)
Definition wrap_int (z : Z) : Z := ((z + 2 ^ 31) mod 2 ^ 32 - 2 ^ 31)%Z.

Definition in_int (z : Z) : Prop := (- 2 ^ 31 <= z < 2 ^ 31)%Z.

(** Truncation toward zero, the rounding of a C++ floating-to-integer cast. *)
Definition Qtruncate (d : Q) : Z :=
  if Qle_bool 0 d then Qfloor d else Qceiling d.

(** [int(d)] and [qint32 n = d]. *)
Definition int_of_qreal (d : qreal) : Z := wrap_int (Qtruncate d).

(** [double(n)] for an integer [n]: exact. *)
Definition qreal_of_int (n : Z) : qreal := inject_Z n.

Definition int_add (a b : Z) : Z := wrap_int (a + b).
Definition int_mul (a b : Z) : Z := wrap_int (a * b).

(** qglobal.h:
    [d >= 0.0 ? int(d + 0.5) : int(d - double(int(d-1)) + 0.5) + int(d-1)]. *)
Definition qRound (d : qreal) : Z :=
  if Qle_bool 0 d then int_of_qreal (d + (1 # 2))
  else int_add
         (int_of_qreal (d - qreal_of_int (int_of_qreal (d - 1)) + (1 # 2)))
         (int_of_qreal (d - 1)).

(** qglobal.h: [qAbs(d) <= 0.000000000001]. *)
Definition qFuzzyIsNull (d : qreal) : bool :=
  Qle_bool (Qabs d) (1 # 1000000000000).

(* ------------------------------------------------------------------ *)
(** ** QPointF, QSizeF, QRectF *)

Module QPointF.
Record t := mk { x : qreal; y : qreal }.

(** The default constructor yields the origin. *)
Definition null : t := mk 0 0.

Definition add (p q : t) : t := mk (x p + x q) (y p + y q).
Definition mul (p : t) (c : qreal) : t := mk (x p * c) (y p * c).
Definition div (p : t) (c : qreal) : t := mk (x p / c) (y p / c).

(** [operator==] is the fuzzy comparison of qpoint.h. *)
Definition eqb (p q : t) : bool :=
  qFuzzyIsNull (x p - x q) && qFuzzyIsNull (y p - y q).

(** Exact agreement of two points as rationals. *)
Definition same (p q : t) : Prop := x p == x q /\ y p == y q.
End QPointF.

Module QSizeF.
Record t := mk { width : qreal; height : qreal }.

(** qsize.h: [wd <= 0. || ht <= 0.]. *)
Definition isEmpty (s : t) : bool :=
  Qle_bool (width s) 0 || Qle_bool (height s) 0.
End QSizeF.

Module QRectF.
Record t := mk { x : qreal; y : qreal; width : qreal; height : qreal }.

Definition size (r : t) : QSizeF.t := QSizeF.mk (width r) (height r).
End QRectF.

(* ------------------------------------------------------------------ *)
(** ** QPolygonF *)

Module QPolygonF.
Definition t := list QPointF.t.

(** Vertex-wise agreement of two polygons. *)
Definition same (a b : t) : Prop := Forall2 QPointF.same a b.

(** [!isEmpty() && first() == last()]. *)
Definition isClosed (p : t) : bool :=
  match p with
  | [] => false
  | first :: _ => QPointF.eqb first (last p first)
  end.

Definition translate (dx dy : qreal) (p : t) : t :=
  map (fun v => QPointF.mk (QPointF.x v + dx) (QPointF.y v + dy)) p.

(** One step of the scan of [boundingRect]:
    [if (v < lo) lo = v; else if (v > hi) hi = v;]. *)
Definition stretch (lo hi v : qreal) : qreal * qreal :=
  if Qltb v lo then (v, hi) else if Qltb hi v then (lo, v) else (lo, hi).

Fixpoint scan (p : t) (minx maxx miny maxy : qreal)
  : qreal * qreal * qreal * qreal :=
  match p with
  | [] => (minx, maxx, miny, maxy)
  | v :: rest =>
      let '(minx', maxx') := stretch minx maxx (QPointF.x v) in
      let '(miny', maxy') := stretch miny maxy (QPointF.y v) in
      scan rest minx' maxx' miny' maxy'
  end.

(** qpolygon.cpp: the empty polygon has the null rectangle; otherwise the
    extremes of the coordinates are collected in one pass. *)
Definition boundingRect (p : t) : QRectF.t :=
  match p with
  | [] => QRectF.mk 0 0 0 0
  | v :: rest =>
      let '(minx, maxx, miny, maxy) :=
        scan rest (QPointF.x v) (QPointF.x v) (QPointF.y v) (QPointF.y v) in
      QRectF.mk minx miny (maxx - minx) (maxy - miny)
  end.
End QPolygonF.

(* ------------------------------------------------------------------ *)
(** ** QPainterPath

    Only paths built from straight segments occur: a block's outline is a
    polygon.  A path is its list of elements. *)

Module QPainterPath.
Inductive ElementType := MoveToElement | LineToElement.

Record Element := mkElement { ex : qreal; ey : qreal; etype : ElementType }.

Definition t := list Element.

Definition empty : t := [].

(** [addPolygon] on a fresh path: a move to the first vertex, then one line
    per further vertex; an empty polygon adds nothing. *)
Definition addPolygon (poly : QPolygonF.t) (path : t) : t :=
  match poly with
  | [] => path
  | first :: rest =>
      path
        ++ mkElement (QPointF.x first) (QPointF.y first) MoveToElement
        :: map (fun v => mkElement (QPointF.x v) (QPointF.y v) LineToElement)
             rest
  end.

Definition translate (offset : QPointF.t) (path : t) : t :=
  map (fun e => mkElement (ex e + QPointF.x offset) (ey e + QPointF.y offset)
                  (etype e)) path.

(** One step of [computeBoundingRect]:
    [if (v > hi) hi = v; else if (v < lo) lo = v;]. *)
Definition stretch (lo hi v : qreal) : qreal * qreal :=
  if Qltb hi v then (lo, v) else if Qltb v lo then (v, hi) else (lo, hi).

Fixpoint scan (p : t) (minx maxx miny maxy : qreal)
  : qreal * qreal * qreal * qreal :=
  match p with
  | [] => (minx, maxx, miny, maxy)
  | e :: rest =>
      let '(minx', maxx') := stretch minx maxx (ex e) in
      let '(miny', maxy') := stretch miny maxy (ey e) in
      scan rest minx' maxx' miny' maxy'
  end.

(** The empty path has the null rectangle. *)
Definition boundingRect (p : t) : QRectF.t :=
  match p with
  | [] => QRectF.mk 0 0 0 0
  | e :: rest =>
      let '(minx, maxx, miny, maxy) :=
        scan rest (ex e) (ex e) (ey e) (ey e) in
      QRectF.mk minx miny (maxx - minx) (maxy - miny)
  end.
End QPainterPath.

(* ------------------------------------------------------------------ *)
(** ** Services of Qt that stay abstract

    [qSin] and [qCos] serve [QTransform::rotate] for angles that are not
    multiples of a right angle; [intersected] and [simplified] are the
    boolean path algebra of [QPainterPath]; [collidesWithItem] is the
    scene-level test of [QGraphicsItem], which reads the current state of
    both items.  Everything proved below holds for every implementation. *)

Class QtServices (Item : Type) := {
  qSin : qreal -> qreal;
  qCos : qreal -> qreal;
  intersected : QPainterPath.t -> QPainterPath.t -> QPainterPath.t;
  simplified : QPainterPath.t -> QPainterPath.t;
  collidesWithItem : Item -> Item -> bool
}.

(* ------------------------------------------------------------------ *)
(** ** QTransform (affine part) *)

Module QTransform.
Record t := mk {
  m11 : qreal; m12 : qreal;
  m21 : qreal; m22 : qreal;
  dx : qreal; dy : qreal
}.

Definition identity : t := mk 1 0 0 1 0 0.

Definition fromScale (sx sy : qreal) : t := mk sx 0 0 sy 0 0.

Definition deg2rad : qreal := 17453292519943295769 # 1000000000000000000000.

Section Rotate.
Context {Item : Type} `{QtServices Item}.

(** Sine and cosine as [rotate] obtains them: exact at the right angles,
    through [qSin] and [qCos] elsewhere. *)
Definition sincos (a : Z) : qreal * qreal :=
  if ((a =? 90) || (a =? -270))%Z then (1, 0)
  else if ((a =? 270) || (a =? -90))%Z then (- (1), 0)
  else if (a =? 180)%Z then (0, - (1))
  else (qSin (deg2rad * inject_Z a), qCos (deg2rad * inject_Z a)).

(** [rotate(a)] about the Z axis: the rotation is applied before [m]. *)
Definition rotate (a : Z) (m : t) : t :=
  if (a =? 0)%Z then m
  else
    let '(sina, cosa) := sincos a in
    mk (cosa * m11 m + sina * m21 m) (cosa * m12 m + sina * m22 m)
       (- sina * m11 m + cosa * m21 m) (- sina * m12 m + cosa * m22 m)
       (dx m) (dy m).
End Rotate.

Definition mapPoint (m : t) (p : QPointF.t) : QPointF.t :=
  QPointF.mk (m11 m * QPointF.x p + m21 m * QPointF.y p + dx m)
             (m12 m * QPointF.x p + m22 m * QPointF.y p + dy m).

Definition map (m : t) (p : QPolygonF.t) : QPolygonF.t :=
  List.map (mapPoint m) p.
End QTransform.

(* ------------------------------------------------------------------ *)
(** ** Events, signals and diagnostics *)

Inductive MouseButton := LeftButton | RightButton | MiddleButton | NoButton.

Inductive Orientation := Horizontal | Vertical.

(** The two signals of [CBlock]. *)
Inductive Signal := incrementMoves | checkPuzzleSolved.

(** The lines the constructor writes with [qDebug] and [qWarning]. *)
Inductive LogLine :=
| DebugCreatingBlock (nID : Z) (position : QPointF.t)
| DebugCreatingBarrier (nID : Z) (position : QPointF.t)
| WarningShapeNotClosed (nID : Z).

Definition isLeft (b : MouseButton) : bool :=
  match b with LeftButton => true | _ => false end.

Definition isRight (b : MouseButton) : bool :=
  match b with RightButton => true | _ => false end.

Definition isVertical (o : Orientation) : bool :=
  match o with Vertical => true | Horizontal => false end.

(* ------------------------------------------------------------------ *)
(** ** CBlock *)

Module CBlock.

(** A [CBlock *]. *)
Definition ptr := nat.

(** The members of [CBlock] that carry state, then the state it inherits
    from [QGraphicsItem].  Brush, pen and the debug label only feed
    [paint] and are left out. *)
Record t := mk {
  m_nID : Z;                       (* quint16 *)
  m_PolyShape : QPolygonF.t;
  m_nGrid : Z;                     (* quint16 *)
  m_pListBlocks : list ptr;        (* the pointee of QList<CBlock *> * *)
  m_bBarrier : bool;
  m_bMousePressed : bool;
  m_pTransform : QTransform.t;
  m_posBlockSelected : QPointF.t;
  pos : QPointF.t;
  zValue : qreal;
  scale : qreal;
  ItemIsMovable : bool
}.

Definition set_PolyShape (v : QPolygonF.t) (b : t) : t :=
  mk (m_nID b) v (m_nGrid b) (m_pListBlocks b) (m_bBarrier b)
     (m_bMousePressed b) (m_pTransform b) (m_posBlockSelected b)
     (pos b) (zValue b) (scale b) (ItemIsMovable b).

Definition set_nGrid (v : Z) (b : t) : t :=
  mk (m_nID b) (m_PolyShape b) v (m_pListBlocks b) (m_bBarrier b)
     (m_bMousePressed b) (m_pTransform b) (m_posBlockSelected b)
     (pos b) (zValue b) (scale b) (ItemIsMovable b).

Definition set_bMousePressed (v : bool) (b : t) : t :=
  mk (m_nID b) (m_PolyShape b) (m_nGrid b) (m_pListBlocks b) (m_bBarrier b)
     v (m_pTransform b) (m_posBlockSelected b)
     (pos b) (zValue b) (scale b) (ItemIsMovable b).

Definition set_pTransform (v : QTransform.t) (b : t) : t :=
  mk (m_nID b) (m_PolyShape b) (m_nGrid b) (m_pListBlocks b) (m_bBarrier b)
     (m_bMousePressed b) v (m_posBlockSelected b)
     (pos b) (zValue b) (scale b) (ItemIsMovable b).

Definition set_posBlockSelected (v : QPointF.t) (b : t) : t :=
  mk (m_nID b) (m_PolyShape b) (m_nGrid b) (m_pListBlocks b) (m_bBarrier b)
     (m_bMousePressed b) (m_pTransform b) v
     (pos b) (zValue b) (scale b) (ItemIsMovable b).

Definition setPos (v : QPointF.t) (b : t) : t :=
  mk (m_nID b) (m_PolyShape b) (m_nGrid b) (m_pListBlocks b) (m_bBarrier b)
     (m_bMousePressed b) (m_pTransform b) (m_posBlockSelected b)
     v (zValue b) (scale b) (ItemIsMovable b).

Definition setZValue (v : qreal) (b : t) : t :=
  mk (m_nID b) (m_PolyShape b) (m_nGrid b) (m_pListBlocks b) (m_bBarrier b)
     (m_bMousePressed b) (m_pTransform b) (m_posBlockSelected b)
     (pos b) v (scale b) (ItemIsMovable b).

Definition setScale (v : qreal) (b : t) : t :=
  mk (m_nID b) (m_PolyShape b) (m_nGrid b) (m_pListBlocks b) (m_bBarrier b)
     (m_bMousePressed b) (m_pTransform b) (m_posBlockSelected b)
     (pos b) (zValue b) v (ItemIsMovable b).

Definition setFlagItemIsMovable (b : t) : t :=
  mk (m_nID b) (m_PolyShape b) (m_nGrid b) (m_pListBlocks b) (m_bBarrier b)
     (m_bMousePressed b) (m_pTransform b) (m_posBlockSelected b)
     (pos b) (zValue b) (scale b) true.

Definition getIndex (b : t) : Z := m_nID b.

Definition boundingRect (b : t) : QRectF.t :=
  QPolygonF.boundingRect (m_PolyShape b).

Definition shape (b : t) : QPainterPath.t :=
  QPainterPath.addPolygon (m_PolyShape b) QPainterPath.empty.

Definition moveBlockGrid (p : QPointF.t) (b : t) : t :=
  setPos (QPointF.mul p (qreal_of_int (m_nGrid b))) b.

(** [int x = qRound(point.x() / m_nGrid) * m_nGrid;] and the same for y. *)
Definition snapToGrid (b : t) (point : QPointF.t) : QPointF.t :=
  let x := int_mul (qRound (QPointF.x point / qreal_of_int (m_nGrid b)))
                   (m_nGrid b) in
  let y := int_mul (qRound (QPointF.y point / qreal_of_int (m_nGrid b)))
                   (m_nGrid b) in
  QPointF.mk (qreal_of_int x) (qreal_of_int y).

Definition setNewZValue (nZ : Z) (b : t) : t :=
  if (nZ <? 0)%Z then
    if Qltb 1 (zValue b) then setZValue (zValue b - 1) b
    else setZValue 1 b
  else setZValue (qreal_of_int nZ) b.

Definition rescaleBlock (nNewScale : Z) (b : t) : t :=
  let tmpTopLeft :=
    QPointF.mul (QPointF.div (pos b) (qreal_of_int (m_nGrid b)))
                (qreal_of_int nNewScale) in
  let b1 := setScale (qreal_of_int nNewScale) b in
  let b2 := set_nGrid nNewScale b1 in
  setPos (snapToGrid b2 tmpTopLeft) b2.

(** The constructor: the object and what it logs.  [m_posBlockSelected] is
    default-constructed; a fresh [QGraphicsItem] sits at the origin with
    z value 0 and scale 1 and is not movable. *)
Definition create (nID : Z) (shape : QPolygonF.t) (nGrid : Z)
    (pListBlocks : list ptr) (posTopLeft : QPointF.t) (bBarrier : bool)
  : t * list LogLine :=
  let b0 := mk nID shape nGrid pListBlocks bBarrier false
               QTransform.identity QPointF.null QPointF.null 0 1 false in
  let log1 :=
    if negb bBarrier then
      [DebugCreatingBlock nID (QPointF.mul posTopLeft (qreal_of_int nGrid))]
    else if bBarrier then
      [DebugCreatingBarrier nID (QPointF.mul posTopLeft (qreal_of_int nGrid))]
    else [] in
  let log2 :=
    if negb (QPolygonF.isClosed shape) then [WarningShapeNotClosed nID]
    else [] in
  let b1 := if negb bBarrier then setFlagItemIsMovable b0 else b0 in
  let b2 := setScale (qreal_of_int nGrid) b1 in
  let b3 := moveBlockGrid posTopLeft b2 in
  (b3, log1 ++ log2).

(** The scene: the store of blocks and the signals emitted so far. *)
Record Scene := mkScene { blocks : ptr -> t; emitted : list Signal }.

Definition update (p : ptr) (f : t -> t) (s : Scene) : Scene :=
  mkScene (fun q => if Nat.eqb q p then f (blocks s p) else blocks s q)
          (emitted s).

Definition emit (sig : Signal) (s : Scene) : Scene :=
  mkScene (blocks s) (emitted s ++ [sig]).

Section Handlers.
Context `{QtServices t}.

(** The peer's outline in board coordinates, as [checkCollision] builds it;
    the divisor is the grid of [this]. *)
Definition collidingPath (self block : t) : QPainterPath.t :=
  QPainterPath.translate
    (QPointF.mk (QPointF.x (pos block) / qreal_of_int (m_nGrid self))
                (QPointF.y (pos block) / qreal_of_int (m_nGrid self)))
    (shape block).

(** The simplified intersection of the candidate path with a peer. *)
Definition intersectedPath (self : t) (thisPath : QPainterPath.t) (block : t)
  : QPainterPath.t :=
  simplified (intersected thisPath (collidingPath self block)).

(** The guard of the loop body. *)
Definition isCandidate (self block : t) : bool :=
  negb (getIndex block =? m_nID self)%Z && collidesWithItem self block.

(** The test that makes the loop return [true]. *)
Definition overlaps (self : t) (thisPath : QPainterPath.t) (block : t)
  : bool :=
  negb (QSizeF.isEmpty
          (QRectF.size
             (QPainterPath.boundingRect (intersectedPath self thisPath block)))).

(** The [foreach] of [checkCollision]. *)
Fixpoint scanBlocks (store : ptr -> t) (self : t)
    (thisPath : QPainterPath.t) (l : list ptr) : bool :=
  match l with
  | [] => false
  | p :: rest =>
      let block := store p in
      if isCandidate self block then
        if overlaps self thisPath block then true
        else scanBlocks store self thisPath rest
      else scanBlocks store self thisPath rest
  end.

Definition checkCollision (this : ptr) (thisPath : QPainterPath.t)
    (s : Scene) : bool :=
  let self := blocks s this in
  scanBlocks (blocks s) self thisPath (m_pListBlocks self).

(** The same loop, recording the entries whose outline it intersects with
    the candidate path, in order. *)
Fixpoint scanBlocksTrace (store : ptr -> t) (self : t)
    (thisPath : QPainterPath.t) (l : list ptr) : list ptr * bool :=
  match l with
  | [] => ([], false)
  | p :: rest =>
      let block := store p in
      if isCandidate self block then
        if overlaps self thisPath block then ([p], true)
        else
          let '(seen, r) := scanBlocksTrace store self thisPath rest in
          (p :: seen, r)
      else scanBlocksTrace store self thisPath rest
  end.

Definition checkCollisionTrace (this : ptr) (thisPath : QPainterPath.t)
    (s : Scene) : list ptr * bool :=
  let self := blocks s this in
  scanBlocksTrace (blocks s) self thisPath (m_pListBlocks self).

(** [update()] and the handlers of the base class repaint and settle
    whether the event is accepted; they touch nothing that is modelled. *)
Definition mousePressEvent (this : ptr) (button : MouseButton) (s : Scene)
  : Scene :=
  let self := blocks s this in
  if isLeft button && negb (m_bBarrier self) then
    let s1 := update this (set_bMousePressed true) s in
    let s2 :=
      fold_left (fun acc p => update p (setNewZValue (-1)) acc)
                (m_pListBlocks self) s1 in
    let s3 :=
      update this
        (setZValue
           (qreal_of_int
              (int_add (Z.of_nat (length (m_pListBlocks self))) 2))) s2 in
    update this (fun b => set_posBlockSelected (pos b) b) s3
  else if isRight button && negb (m_bBarrier self) then
    update this
      (fun b =>
         let b1 :=
           set_PolyShape
             (QTransform.map (QTransform.fromScale (- (1)) 1) (m_PolyShape b))
             b in
         set_PolyShape
           (QPolygonF.translate (QRectF.width (boundingRect b1)) 0
              (m_PolyShape b1)) b1) s
  else s.

Definition wheelEvent (this : ptr) (orientation : Orientation) (delta : Z)
    (s : Scene) : Scene :=
  let self := blocks s this in
  if isVertical orientation && negb (m_bBarrier self) then
    let '(nAngle, nTranslateX, nTranslateY) :=
      if (delta <? 0)%Z then
        (90%Z, int_of_qreal (QRectF.height (boundingRect self)), 0%Z)
      else
        ((-90)%Z, 0%Z, int_of_qreal (QRectF.width (boundingRect self))) in
    update this
      (fun b =>
         let b1 :=
           set_pTransform (QTransform.rotate nAngle QTransform.identity) b in
         let b2 :=
           set_PolyShape (QTransform.map (m_pTransform b1) (m_PolyShape b1))
             b1 in
         set_PolyShape
           (QPolygonF.translate (qreal_of_int nTranslateX)
              (qreal_of_int nTranslateY) (m_PolyShape b2)) b2) s
  else s.

Definition mouseReleaseEvent (this : ptr) (button : MouseButton) (s : Scene)
  : Scene :=
  let self := blocks s this in
  if isLeft button && negb (m_bBarrier self) then
    let s1 := update this (set_bMousePressed false) s in
    let s2 := update this (fun b => setPos (snapToGrid b (pos b)) b) s1 in
    let b2 := blocks s2 this in
    let thisPath :=
      QPainterPath.translate
        (QPointF.mk (QPointF.x (pos b2) / qreal_of_int (m_nGrid b2))
                    (QPointF.y (pos b2) / qreal_of_int (m_nGrid b2)))
        (shape b2) in
    let s3 := emit incrementMoves s2 in
    if checkCollision this thisPath s3 then
      update this (fun b => setPos (snapToGrid b (m_posBlockSelected b)) b) s3
    else emit checkPuzzleSolved s3
  else s.
End Handlers.
End CBlock.

(* ------------------------------------------------------------------ *)
(** ** Vocabulary of the statements *)

Inductive Axis := AxisX | AxisY.

Definition coord (ax : Axis) (p : QPointF.t) : qreal :=
  match ax with AxisX => QPointF.x p | AxisY => QPointF.y p end.

Definition dim (ax : Axis) (r : QRectF.t) : qreal :=
  match ax with AxisX => QRectF.width r | AxisY => QRectF.height r end.

(** The one-dimensional scan behind [QPolygonF.scan]. *)
Fixpoint range (lo hi : qreal) (l : list qreal) : qreal * qreal :=
  match l with
  | [] => (lo, hi)
  | v :: rest =>
      let '(lo', hi') := QPolygonF.stretch lo hi v in range lo' hi' rest
  end.

(** [lo] and [hi] are the least and the greatest value of [l]. *)
Definition Bounds (l : list qreal) (lo hi : qreal) : Prop :=
  Forall (fun v => lo <= v <= hi) l /\
  Exists (fun v => v == lo) l /\ Exists (fun v => v == hi) l.

(** [w] is the spread of the values of [l]; the empty list has spread 0. *)
Definition Extent (l : list qreal) (w : qreal) : Prop :=
  match l with
  | [] => w == 0
  | _ => exists lo hi, Bounds l lo hi /\ w == hi - lo
  end.

(** Vertex-wise agreement of two polygons, decided. *)
Fixpoint samePolygonb (a b : QPolygonF.t) : bool :=
  match a, b with
  | [], [] => true
  | p :: a', q :: b' =>
      Qeq_bool (QPointF.x p) (QPointF.x q) &&
      Qeq_bool (QPointF.y p) (QPointF.y q) && samePolygonb a' b'
  | _, _ => false
  end.



(** A number without fractional part. *)
Definition isWhole (q : qreal) : Prop := exists z : Z, q == inject_Z z.

(** A bounding dimension after its round trip through [qint32]. *)
Definition truncated (d : qreal) : qreal := qreal_of_int (int_of_qreal d).

Definition mirror : QTransform.t := QTransform.fromScale (- (1)) 1.

(** What a secondary-button press does to the outline. *)
Definition flipShape (p : QPolygonF.t) : QPolygonF.t :=
  let m := QTransform.map mirror p in
  QPolygonF.translate (QRectF.width (QPolygonF.boundingRect m)) 0 m.

(** A quarter turn as [rotate(90)] performs it, then a shift along X. *)
Definition quarterL (t : qreal) (v : QPointF.t) : QPointF.t :=
  QPointF.mk (- QPointF.y v + t) (QPointF.x v).

(** A quarter turn as [rotate(-90)] performs it, then a shift along Y. *)
Definition quarterR (t : qreal) (v : QPointF.t) : QPointF.t :=
  QPointF.mk (QPointF.y v) (- QPointF.x v + t).

(** [s] is the image of [s0] under a map that agrees with [F]. *)
Definition Tracks (s0 s : QPolygonF.t) (F : QPointF.t -> QPointF.t) : Prop :=
  exists G, s = map G s0 /\ forall v, QPointF.same (G v) (F v).

(** The gestures the input layer delivers to a block. *)
Inductive Gesture :=
| Press (button : MouseButton)
| Release (button : MouseButton)
| Wheel (orientation : Orientation) (delta : Z).

Section Vocabulary.
Context `{QtServices CBlock.t}.

(** What a vertical wheel gesture does to the outline. *)
Definition wheelShape (delta : Z) (p : QPolygonF.t) : QPolygonF.t :=
  if (delta <? 0)%Z then
    QPolygonF.translate
      (truncated (QRectF.height (QPolygonF.boundingRect p))) 0
      (QTransform.map (QTransform.rotate 90 QTransform.identity) p)
  else
    QPolygonF.translate
      0 (truncated (QRectF.width (QPolygonF.boundingRect p)))
      (QTransform.map (QTransform.rotate (-90) QTransform.identity) p).

Definition deliver (this : CBlock.ptr) (g : Gesture) (s : CBlock.Scene)
  : CBlock.Scene :=
  match g with
  | Press b => CBlock.mousePressEvent this b s
  | Release b => CBlock.mouseReleaseEvent this b s
  | Wheel o d => CBlock.wheelEvent this o d s
  end.

(** The entry [p] of the list makes the loop of [checkCollision] answer
    [true]: it passes the guard and its intersection has an extent. *)
Definition hits (store : CBlock.ptr -> CBlock.t) (self : CBlock.t)
    (thisPath : QPainterPath.t) (p : CBlock.ptr) : bool :=
  CBlock.isCandidate self (store p) &&
  CBlock.overlaps self thisPath (store p).
End Vocabulary.

(* ------------------------------------------------------------------ *)
(** ** A bounding-box implementation of the Qt services

    Exact for outlines that are axis-aligned rectangles; it is the instance
    at which the statements are exercised on concrete scenes. *)

Module Box.
Definition Qmaxb (a b : qreal) : qreal := if Qle_bool a b then b else a.
Definition Qminb (a b : qreal) : qreal := if Qle_bool a b then a else b.

Definition rectPath (x0 y0 x1 y1 : qreal) : QPainterPath.t :=
  [ QPainterPath.mkElement x0 y0 QPainterPath.MoveToElement;
    QPainterPath.mkElement x1 y0 QPainterPath.LineToElement;
    QPainterPath.mkElement x1 y1 QPainterPath.LineToElement;
    QPainterPath.mkElement x0 y1 QPainterPath.LineToElement;
    QPainterPath.mkElement x0 y0 QPainterPath.LineToElement ].

Definition right (r : QRectF.t) : qreal := QRectF.x r + QRectF.width r.
Definition bottom (r : QRectF.t) : qreal := QRectF.y r + QRectF.height r.

(** Two rectangles share at least a point. *)
Definition touch (a b : QRectF.t) : bool :=
  Qle_bool (QRectF.x a) (right b) && Qle_bool (QRectF.x b) (right a) &&
  Qle_bool (QRectF.y a) (bottom b) && Qle_bool (QRectF.y b) (bottom a).

Definition intersected (p q : QPainterPath.t) : QPainterPath.t :=
  match p, q with
  | [], _ | _, [] => []
  | _, _ =>
      let a := QPainterPath.boundingRect p in
      let b := QPainterPath.boundingRect q in
      if touch a b then
        rectPath (Qmaxb (QRectF.x a) (QRectF.x b))
                 (Qmaxb (QRectF.y a) (QRectF.y b))
                 (Qminb (right a) (right b)) (Qminb (bottom a) (bottom b))
      else []
  end.

(** A path that encloses no area simplifies to the empty path. *)
Definition simplified (p : QPainterPath.t) : QPainterPath.t :=
  if QSizeF.isEmpty (QRectF.size (QPainterPath.boundingRect p)) then []
  else p.

(** The bounding rectangle of an item in scene coordinates. *)
Definition sceneRect (b : CBlock.t) : QRectF.t :=
  let r := CBlock.boundingRect b in
  QRectF.mk (QPointF.x (CBlock.pos b) + CBlock.scale b * QRectF.x r)
            (QPointF.y (CBlock.pos b) + CBlock.scale b * QRectF.y r)
            (CBlock.scale b * QRectF.width r)
            (CBlock.scale b * QRectF.height r).

Definition collidesWithItem (a b : CBlock.t) : bool :=
  match CBlock.m_PolyShape a, CBlock.m_PolyShape b with
  | [], _ | _, [] => false
  | _, _ => touch (sceneRect a) (sceneRect b)
  end.

(** Sine and cosine are low-order Taylor polynomials; the blocks only turn
    by right angles and never reach them. *)
Definition services : QtServices CBlock.t :=
  Build_QtServices CBlock.t
    (fun a => a - a * a * a / 6) (fun a => 1 - a * a / 2)
    intersected simplified collidesWithItem.
End Box.

(* ------------------------------------------------------------------ *)
(** ** Concrete scenes *)

Module Examples.
Definition pt (x y : qreal) : QPointF.t := QPointF.mk x y.

Definition unitSquare : QPolygonF.t :=
  [pt 0 0; pt 1 0; pt 1 1; pt 0 1; pt 0 0].

(** A rectangle one cell wide and two cells high. *)
Definition domino : QPolygonF.t :=
  [pt 0 0; pt 1 0; pt 1 2; pt 0 2; pt 0 0].

(** A right triangle with legs 3/2 and 5/2. *)
Definition wedge : QPolygonF.t :=
  [pt 0 0; pt (3 # 2) 0; pt (3 # 2) (5 # 2); pt 0 0].

(** A sliver as tall as 2^31 + 1/2. *)
Definition sliver : QPolygonF.t :=
  [pt 0 0; pt 1 0; pt 1 (4294967297 # 2); pt 0 0].

(** Three vertices, the last away from the first. *)
Definition openShape : QPolygonF.t := [pt 0 0; pt 1 0; pt 1 1].

Definition registry : list CBlock.ptr :=
  [0%nat; 1%nat; 2%nat; 3%nat; 4%nat; 5%nat].

Definition blockA : CBlock.t :=
  fst (CBlock.create 1 unitSquare 10 registry (pt 0 0) false).

Definition blockB : CBlock.t :=
  fst (CBlock.create 2 unitSquare 10 registry (pt 5 0) false).

Definition barrierC : CBlock.t :=
  fst (CBlock.create 3 unitSquare 10 registry (pt 0 5) true).

Definition wedgeD : CBlock.t :=
  fst (CBlock.create 4 wedge 10 registry (pt 8 8) false).

Definition sliverE : CBlock.t :=
  fst (CBlock.create 5 sliver 10 registry (pt 20 0) false).

(** A block on a grid of 3 pixels. *)
Definition fineF : CBlock.t :=
  fst (CBlock.create 6 unitSquare 3 registry (pt 0 0) false).

Definition dominoG : CBlock.t :=
  fst (CBlock.create 7 domino 10 registry (pt 12 0) false).

Definition store (p : CBlock.ptr) : CBlock.t :=
  match p with
  | 0%nat => blockA
  | 1%nat => blockB
  | 2%nat => barrierC
  | 3%nat => wedgeD
  | 4%nat => sliverE
  | _ => dominoG
  end.

Definition scene : CBlock.Scene := CBlock.mkScene store [].

(** The unit square as it would lie on the cell of [blockB]. *)
Definition onB : QPainterPath.t :=
  QPainterPath.translate (pt 5 0)
    (QPainterPath.addPolygon unitSquare QPainterPath.empty).

(** [blockA] picked up and moved by hand to a pixel position. *)
Definition draggedTo (p : QPointF.t) : CBlock.Scene :=
  CBlock.update 0%nat (CBlock.setPos p)
    (CBlock.mousePressEvent 0%nat LeftButton scene).
End Examples.

(* ------------------------------------------------------------------ *)
(** ** Painting

    [paint] draws through a [QPainter]; it is modelled by the calls it
    makes, in order.  Brush and pen colour are left out as before; the pen
    is represented by the width [paint] gives it. *)

Inductive PainterCall :=
| setOpacity (opacity : qreal)
| fillPath (path : QPainterPath.t)
| setPen (width : Z)
| drawPolygon (polygon : QPolygonF.t)
| showItemNumber (text : Z) (position : QPointF.t).

(** [1/m_nGrid]: both operands are integers, the quotient is truncated. *)
Definition penWidth (b : CBlock.t) : Z := Z.quot 1 (CBlock.m_nGrid b).

(** The opacity is 0.4 while the block is held and 1 otherwise; the item
    number is attached only in debug mode. *)
Definition paint (bDEBUG : bool) (b : CBlock.t) : list PainterCall :=
  let width := penWidth b in
  [ setOpacity
      (if CBlock.m_bMousePressed b && negb (CBlock.m_bBarrier b)
       then 4 # 10 else 1);
    fillPath (QPainterPath.addPolygon (CBlock.m_PolyShape b) QPainterPath.empty);
    setPen width;
    drawPolygon (CBlock.m_PolyShape b) ]
  ++ (if bDEBUG
      then [showItemNumber (CBlock.m_nID b) (QPointF.mk (2 # 10) (- (11 # 10)))]
      else []).


(* ------------------------------------------------------------------ *)
(** ** Further vocabulary *)

(** Where a rectangle starts along an axis. *)
Definition origin (ax : Axis) (r : QRectF.t) : qreal :=
  match ax with AxisX => QRectF.x r | AxisY => QRectF.y r end.

(** Agreement of two rectangles as rationals. *)
Definition sameRect (a b : QRectF.t) : Prop :=
  QRectF.x a == QRectF.x b /\ QRectF.y a == QRectF.y b /\
  QRectF.width a == QRectF.width b /\ QRectF.height a == QRectF.height b.

(** The position of the grid cell (i, j) on a grid of [g] pixels. *)
Definition cell (g i j : Z) : QPointF.t :=
  QPointF.mk (inject_Z (i * g)) (inject_Z (j * g)).

(** The motion of a held block: the base class moves the item with the
    pointer and touches nothing else of it. *)
Definition dragTo (this : CBlock.ptr) (p : QPointF.t) (s : CBlock.Scene)
  : CBlock.Scene :=
  CBlock.update this (CBlock.setPos p) s.

(* ------------------------------------------------------------------ *)
(** ** Outlines on whole cells

    Outlines whose vertices have whole coordinates below 2^30 in size.  On
    such outlines every sum and difference the handlers form is a whole
    number far below 2^53 and every bounding dimension is below 2^31: a
    double holds each value exactly and the conversion to [qint32] is in
    range, so the rational model and the program agree. *)

Definition wholeCoordinate (q : qreal) : Prop :=
  exists z : Z, q == inject_Z z /\ (Z.abs z < 2 ^ 30)%Z.

Definition onCells (p : QPolygonF.t) : Prop :=
  Forall (fun v => wholeCoordinate (QPointF.x v) /\
                   wholeCoordinate (QPointF.y v)) p.

(** Every coordinate of the outline is a whole number, of any size. *)
Definition onWhole (p : QPolygonF.t) : Prop :=
  Forall (fun v => isWhole (QPointF.x v) /\ isWhole (QPointF.y v)) p.

Definition wholeCoordinateb (q : qreal) : bool :=
  Qeq_bool q (inject_Z (Qfloor q)) && (Z.abs (Qfloor q) <? 2 ^ 30)%Z.

Definition onCellsb (p : QPolygonF.t) : bool :=
  forallb (fun v => wholeCoordinateb (QPointF.x v) &&
                    wholeCoordinateb (QPointF.y v)) p.

(* ------------------------------------------------------------------ *)
(** ** A colliding entry, in the words of the specification *)

Section Colliding.
Context `{QtServices CBlock.t}.

(** The entry [p] collides with the candidate path: its id differs from
    that of [self], the two items pass the broad-phase test, and the
    simplified intersection of the candidate path with the outline of [p],
    moved to board coordinates, has a bounding rectangle of non-zero width
    and non-zero height. *)
Definition Collides (store : CBlock.ptr -> CBlock.t) (self : CBlock.t)
    (thisPath : QPainterPath.t) (p : CBlock.ptr) : Prop :=
  CBlock.m_nID (store p) <> CBlock.m_nID self /\
  collidesWithItem self (store p) = true /\
  let outline :=
    QPainterPath.translate
      (QPointF.mk
         (QPointF.x (CBlock.pos (store p)) / inject_Z (CBlock.m_nGrid self))
         (QPointF.y (CBlock.pos (store p)) / inject_Z (CBlock.m_nGrid self)))
      (QPainterPath.addPolygon (CBlock.m_PolyShape (store p)) []) in
  let r := QPainterPath.boundingRect (simplified (intersected thisPath outline)) in
  ~ QRectF.width r == 0 /\ ~ QRectF.height r == 0.
End Colliding.

(* ------------------------------------------------------------------ *)
(** ** The reshaping gestures over binary64

    The flip and the wheel turn once more, now on IEEE doubles with the
    operations in the order Qt performs them.  This embedding serves to
    exhibit what rounding does to outlines that are not on whole cells. *)

Module Double.
Local Open Scope float_scope.

Definition point := (float * float)%type.
Definition polygon := list point.

(** [QPolygonF::boundingRect], as (x, y, width, height). *)
Definition stretch (lo hi v : float) : float * float :=
  if PrimFloat.ltb v lo then (v, hi)
  else if PrimFloat.ltb hi v then (lo, v) else (lo, hi).

Fixpoint scan (p : polygon) (minx maxx miny maxy : float)
  : float * float * float * float :=
  match p with
  | [] => (minx, maxx, miny, maxy)
  | v :: rest =>
      let '(minx', maxx') := stretch minx maxx (fst v) in
      let '(miny', maxy') := stretch miny maxy (snd v) in
      scan rest minx' maxx' miny' maxy'
  end.

Definition boundingRect (p : polygon) : float * float * float * float :=
  match p with
  | [] => (0, 0, 0, 0)
  | v :: rest =>
      let '(minx, maxx, miny, maxy) :=
        scan rest (fst v) (fst v) (snd v) (snd v) in
      (minx, miny, maxx - minx, maxy - miny)
  end.

Definition width (r : float * float * float * float) : float := snd (fst r).
Definition height (r : float * float * float * float) : float := snd r.

Definition translate (dx dy : float) (p : polygon) : polygon :=
  map (fun v => (fst v + dx, snd v + dy)) p.

(** [QTransform::map] for a scaling: [m11 * x + dx], [m22 * y + dy]. *)
Definition mapScale (m11 m22 : float) (p : polygon) : polygon :=
  map (fun v => (m11 * fst v + 0, m22 * snd v + 0)) p.

(** [QTransform::map] for a rotation:
    [m11 * x + m21 * y + dx], [m12 * x + m22 * y + dy]. *)
Definition mapRotate (m11 m12 m21 m22 : float) (p : polygon) : polygon :=
  map (fun v => (m11 * fst v + m21 * snd v + 0,
                 m12 * fst v + m22 * snd v + 0)) p.

(** [qint32 n = d]: truncation toward zero; out of range the conversion
    instruction of x86 yields -2^31. *)
Definition qint32_of_double (d : float) : Z :=
  match Prim2SF d with
  | S754_zero _ => 0%Z
  | S754_finite s m e =>
      let a := if (0 <=? e)%Z then (Z.pos m * 2 ^ e)%Z
               else (Z.pos m / 2 ^ (- e))%Z in
      let z := if s then (- a)%Z else a in
      if ((- 2 ^ 31 <=? z) && (z <? 2 ^ 31))%Z then z else (- 2 ^ 31)%Z
  | _ => (- 2 ^ 31)%Z
  end.

(** [double(n)] for a 32-bit integer: exact. *)
Definition double_of_int (z : Z) : float :=
  match z with
  | Z0 => 0
  | Zpos p => SF2Prim (S754_finite false p 0)
  | Zneg p => SF2Prim (S754_finite true p 0)
  end.

(** The secondary-button branch of [mousePressEvent] on the outline. *)
Definition flip (p : polygon) : polygon :=
  let m := mapScale (-1) 1 p in
  translate (width (boundingRect m)) 0 m.

(** The body of [wheelEvent] on the outline; [negative] is [delta < 0]. *)
Definition wheel (negative : bool) (p : polygon) : polygon :=
  if negative then
    translate (double_of_int (qint32_of_double (height (boundingRect p))))
              (double_of_int 0)
              (mapRotate 0 1 (-1) 0 p)
  else
    translate (double_of_int 0)
              (double_of_int (qint32_of_double (width (boundingRect p))))
              (mapRotate 0 (-1) 1 0 p).

Fixpoint samePolygonb (a b : polygon) : bool :=
  match a, b with
  | [], [] => true
  | p :: a', q :: b' =>
      PrimFloat.eqb (fst p) (fst q) && PrimFloat.eqb (snd p) (snd q) &&
      samePolygonb a' b'
  | _, _ => false
  end.

(** [Examples.domino], one cell wide and two cells high. *)
Definition domino : polygon :=
  [(0, 0); (1, 0); (1, 2); (0, 2); (0, 0)].


End Double.

(* ================================================================== *)
(** * Properties *)

(* ------------------------------------------------------------------ *)
(** ** Machine numbers *)

Lemma wrap_int_id z : in_int z -> wrap_int z = z.
Proof.
  unfold in_int, wrap_int. intros Hz.
  rewrite Z.mod_small; lia.
Qed.

Lemma Qle_bool_false a b : Qle_bool a b = false -> b < a.
Proof.
  intros H. apply Qnot_le_lt. intros Hle.
  apply Qle_bool_iff in Hle. congruence.
Qed.

Lemma Qtruncate_comp a b : a == b -> Qtruncate a = Qtruncate b.
Proof.
  intros E. unfold Qtruncate. rewrite (Qleb_comp 0 0 (Qeq_refl 0) a b E).
  destruct (Qle_bool 0 b); [apply Qfloor_comp | apply Qceiling_comp]; exact E.
Qed.

Lemma Qtruncate_Z z : Qtruncate (inject_Z z) = z.
Proof.
  unfold Qtruncate. destruct (Qle_bool 0 (inject_Z z)).
  - apply Qfloor_Z.
  - apply Qceiling_Z.
Qed.

Lemma inject_Z_lt a b : (a < b)%Z -> inject_Z a < inject_Z b.
Proof. intros. rewrite <- Zlt_Qlt. assumption. Qed.

Lemma inject_Z_le a b : (a <= b)%Z -> inject_Z a <= inject_Z b.
Proof. intros. rewrite <- Zle_Qle. assumption. Qed.

Lemma inject_Z_plus1 a : inject_Z (a + 1) == inject_Z a + 1.
Proof. rewrite inject_Z_plus. reflexivity. Qed.

Lemma inject_Z_minus1 a : inject_Z (a - 1) == inject_Z a - 1.
Proof. unfold Z.sub. rewrite inject_Z_plus. reflexivity. Qed.

Lemma Z_of_Q_lt a b : inject_Z a < inject_Z b -> (a < b)%Z.
Proof. intros. rewrite Zlt_Qlt. assumption. Qed.
Lemma Z_of_Q_le a b : inject_Z a <= inject_Z b -> (a <= b)%Z.
Proof. intros. rewrite Zle_Qle. assumption. Qed.

Lemma Qtruncate_between d (L K : Z) :
  inject_Z L <= d -> d <= inject_Z K -> (L <= Qtruncate d <= K)%Z.
Proof.
  intros HL HK.
  assert (HfL : (L <= Qfloor d)%Z)
    by (rewrite <- (Qfloor_Z L); apply Qfloor_resp_le; exact HL).
  assert (HcK : (Qceiling d <= K)%Z)
    by (rewrite <- (Qceiling_Z K); apply Qceiling_resp_le; exact HK).
  assert (Hfc : (Qfloor d <= Qceiling d)%Z)
    by (apply Z_of_Q_le, Qle_floor_ceiling).
  unfold Qtruncate. destruct (Qle_bool 0 d); lia.
Qed.

Lemma Qtruncate_bounds d :
  (0 <= d -> inject_Z (Qtruncate d) <= d /\ d < inject_Z (Qtruncate d) + 1) /\
  (d < 0 -> d <= inject_Z (Qtruncate d) /\ inject_Z (Qtruncate d) - 1 < d).
Proof.
  unfold Qtruncate. split; intros Hd.
  - apply Qle_bool_iff in Hd. rewrite Hd. split.
    + apply Qfloor_le.
    + rewrite <- inject_Z_plus1. apply Qlt_floor.
  - destruct (Qle_bool 0 d) eqn:E.
    + apply Qle_bool_iff in E. lra.
    + split.
      * apply Qle_ceiling.
      * rewrite <- inject_Z_minus1. apply Qceiling_lt.
Qed.

(** An integer within one half of an integer is that integer. *)
Lemma near_integer (a b : Z) :
  inject_Z a - (1 # 2) <= inject_Z b -> inject_Z b <= inject_Z a + (1 # 2) -> a = b.
Proof.
  intros H1 H2.
  assert (inject_Z (a - 1) < inject_Z b) by (rewrite inject_Z_minus1; lra).
  assert (inject_Z b < inject_Z (a + 1)) by (rewrite inject_Z_plus1; lra).
  apply Z_of_Q_lt in H, H0. lia.
Qed.

(** Within the range of [int] [qRound] is rounding to a nearest integer. *)
Lemma qRound_near d (K : Z) :
  (0 <= K <= 2 ^ 31 - 2)%Z -> - inject_Z K <= d -> d <= inject_Z K ->
  d - (1 # 2) <= inject_Z (qRound d) <= d + (1 # 2) /\ (- K <= qRound d <= K)%Z.
Proof.
  intros HK Hlo Hhi. unfold qRound, int_add, int_of_qreal, qreal_of_int.
  destruct (Qle_bool 0 d) eqn:E.
  - apply Qle_bool_iff in E.
    assert (Hb : (0 <= Qtruncate (d + (1 # 2)) <= K)%Z).
    { assert (Hb' : (0 <= Qtruncate (d + (1 # 2)) <= K + 1)%Z).
      { apply Qtruncate_between.
        - unfold inject_Z; lra. 
        - rewrite inject_Z_plus1. lra. }
      split; [lia|].
      destruct (proj1 (Qtruncate_bounds (d + (1#2))) ltac:(lra)) as [H1 H2].
      apply Z.lt_succ_r. apply Z_of_Q_lt.
      unfold Z.succ. rewrite inject_Z_plus1. lra. }
    rewrite wrap_int_id by (unfold in_int; lia).
    destruct (proj1 (Qtruncate_bounds (d + (1#2))) ltac:(lra)) as [H1 H2].
    split; [split; lra | lia].
  - apply Qle_bool_false in E.
    assert (Ha : (- K - 1 <= Qtruncate (d - 1) <= -1)%Z).
    { apply Qtruncate_between.
      - rewrite inject_Z_minus1, inject_Z_opp. lra.
      - unfold inject_Z; lra. }
    rewrite (wrap_int_id (Qtruncate (d - 1))) by (unfold in_int; lia).
    destruct (proj2 (Qtruncate_bounds (d - 1)) ltac:(lra)) as [H1 H2].
    set (a := Qtruncate (d - 1)) in *.
    assert (Hy0 : 1 # 2 < d - inject_Z a + (1 # 2)) by lra.
    assert (Hy1 : d - inject_Z a + (1 # 2) <= 3 # 2) by lra.
    assert (Hb : (0 <= Qtruncate (d - inject_Z a + (1 # 2)) <= 2)%Z).
    { apply Qtruncate_between;
        [change (inject_Z 0) with 0 | change (inject_Z 2) with 2]; lra. }
    rewrite (wrap_int_id (Qtruncate _)) by (unfold in_int; lia).
    destruct (proj1 (Qtruncate_bounds (d - inject_Z a + (1 # 2))) ltac:(lra))
      as [H3 H4].
    set (b := Qtruncate (d - inject_Z a + (1 # 2))) in *.
    assert (Hb1 : (b < 2)%Z)
      by (apply Z_of_Q_lt; change (inject_Z 2) with 2; lra).
    assert (Hab : inject_Z (b + a) == inject_Z b + inject_Z a)
      by (rewrite inject_Z_plus; reflexivity).
    assert (Hr : d - (1 # 2) <= inject_Z (b + a) <= d + (1 # 2)) by (split; lra).
    assert (Hrange : (- K <= b + a <= K)%Z).
    { split.
      - apply Z.lt_pred_le. unfold Z.pred. apply Z_of_Q_lt.
        change (-K + -1)%Z with (- K - 1)%Z.
        rewrite inject_Z_minus1, inject_Z_opp. lra.
      - lia. }
    rewrite wrap_int_id by (unfold in_int; lia).
    split; [exact Hr | exact Hrange].
Qed.

Lemma qRound_comp a b : a == b -> qRound a = qRound b.
Proof.
  intros E. unfold qRound, int_of_qreal, qreal_of_int.
  rewrite (Qleb_comp 0 0 (Qeq_refl 0) a b E).
  rewrite (Qtruncate_comp (a + (1 # 2)) (b + (1 # 2))) by (rewrite E; reflexivity).
  rewrite (Qtruncate_comp (a - 1) (b - 1)) by (rewrite E; reflexivity).
  rewrite (Qtruncate_comp (a - inject_Z (wrap_int (Qtruncate (b - 1))) + (1 # 2))
             (b - inject_Z (wrap_int (Qtruncate (b - 1))) + (1 # 2)))
    by (rewrite E; reflexivity).
  reflexivity.
Qed.

Lemma qRound_inject_Z k :
  (- (2 ^ 31 - 2) <= k <= 2 ^ 31 - 2)%Z -> qRound (inject_Z k) = k.
Proof.
  intros Hk.
  destruct (qRound_near (inject_Z k) (2 ^ 31 - 2)) as [[H1 H2] _].
  - lia.
  - rewrite <- inject_Z_opp. apply inject_Z_le. lia.
  - apply inject_Z_le. lia.
  - symmetry. apply near_integer; lra.
Qed.

(* ------------------------------------------------------------------ *)
(** ** Grid snapping *)

Lemma snap_coordinate (g : Z) (x : Q) :
  (0 < g <= 65535)%Z -> Qabs x <= 2147418112 ->
  let k := qRound (x / inject_Z g) in
  int_mul k g = (k * g)%Z /\
  int_mul (qRound (inject_Z (k * g) / inject_Z g)) g = (k * g)%Z.
Proof.
  intros Hg Hx k.
  apply Qabs_Qle_condition in Hx. destruct Hx as [Hx1 Hx2].
  assert (Hg1 : 1 <= inject_Z g)
    by (change 1 with (inject_Z 1); apply inject_Z_le; lia).
  assert (Hg2 : inject_Z g <= 65535)
    by (change 65535 with (inject_Z 65535); apply inject_Z_le; lia).
  assert (Hgn : ~ inject_Z g == 0) by lra.
  set (g' := inject_Z g) in *.
  assert (Hd1 : - inject_Z 2147418112 <= x / g').
  { change (inject_Z 2147418112) with 2147418112.
    apply Qle_shift_div_l; lra. }
  assert (Hd2 : x / g' <= inject_Z 2147418112).
  { change (inject_Z 2147418112) with 2147418112.
    apply Qle_shift_div_r; lra. }
  destruct (qRound_near (x / g') 2147418112 ltac:(lia) Hd1 Hd2)
    as [[Hn1 Hn2] Hk].
  fold k in Hn1, Hn2, Hk.
  assert (Hdg : x / g' * g' == x) by (field; exact Hgn).
  assert (Hm1 : (x / g' - (1 # 2)) * g' <= inject_Z k * g')
    by (apply Qmult_le_compat_r; lra).
  assert (Hm2 : inject_Z k * g' <= (x / g' + (1 # 2)) * g')
    by (apply Qmult_le_compat_r; lra).
  assert (Hkg : inject_Z (k * g) == inject_Z k * g')
    by (unfold g'; rewrite inject_Z_mult; reflexivity).
  assert (He1 : (x / g' - (1 # 2)) * g' == x - (1 # 2) * g')
    by (rewrite <- Hdg at 2; ring).
  assert (He2 : (x / g' + (1 # 2)) * g' == x + (1 # 2) * g')
    by (rewrite <- Hdg at 2; ring).
  assert (Hr : (- 2147450880 <= k * g <= 2147450880)%Z).
  { split; apply Z_of_Q_le.
    - change (inject_Z (-2147450880)) with (-2147450880). lra.
    - change (inject_Z 2147450880) with 2147450880. lra. }
  assert (Hkr : (- 2147450880 <= k <= 2147450880)%Z) by nia.
  split.
  - unfold int_mul. apply wrap_int_id. unfold in_int. lia.
  - rewrite (qRound_comp (inject_Z (k * g) / g') (inject_Z k)).
    + rewrite qRound_inject_Z by lia.
      unfold int_mul. apply wrap_int_id. unfold in_int. lia.
    + rewrite Hkg. field. exact Hgn.
Qed.

(* ------------------------------------------------------------------ *)
(** ** Bounding rectangles of polygons *)

Lemma Qltb_true a b : Qltb a b = true -> a < b.
Proof.
  unfold Qltb. intros H. apply negb_true_iff in H.
  apply Qnot_le_lt. intros Hle. apply Qle_bool_iff in Hle. congruence.
Qed.

Lemma Qltb_false a b : Qltb a b = false -> b <= a.
Proof.
  unfold Qltb. intros H. apply negb_false_iff in H.
  apply Qle_bool_iff. exact H.
Qed.

Lemma scan_range p a b c d :
  QPolygonF.scan p a b c d =
  (fst (range a b (map QPointF.x p)), snd (range a b (map QPointF.x p)),
   fst (range c d (map QPointF.y p)), snd (range c d (map QPointF.y p))).
Proof.
  revert a b c d. induction p as [|v p IH]; intros a b c d; cbn.
  - reflexivity.
  - destruct (QPolygonF.stretch a b (QPointF.x v)) as [a' b'].
    destruct (QPolygonF.stretch c d (QPointF.y v)) as [c' d'].
    apply IH.
Qed.

Lemma range_spec l : forall lo0 hi0, lo0 <= hi0 ->
  let '(lo, hi) := range lo0 hi0 l in
  lo <= lo0 /\ hi0 <= hi /\
  Forall (fun v => lo <= v <= hi) l /\
  (lo = lo0 \/ In lo l) /\ (hi = hi0 \/ In hi l).
Proof.
  induction l as [|v l IH]; intros lo0 hi0 H0; cbn.
  - repeat split; try lra; auto.
  - unfold QPolygonF.stretch.
    destruct (Qltb v lo0) eqn:E1; [| destruct (Qltb hi0 v) eqn:E2].
    + apply Qltb_true in E1.
      specialize (IH v hi0 ltac:(lra)).
      destruct (range v hi0 l) as [lo hi].
      destruct IH as (A & B & C & D & E).
      repeat split; try lra.
      * constructor; [lra|exact C].
      * destruct D as [-> | D]; auto.
      * destruct E as [-> | E]; auto.
    + apply Qltb_false in E1. apply Qltb_true in E2.
      specialize (IH lo0 v ltac:(lra)).
      destruct (range lo0 v l) as [lo hi].
      destruct IH as (A & B & C & D & E).
      repeat split; try lra.
      * constructor; [lra|exact C].
      * destruct D as [-> | D]; auto.
      * destruct E as [-> | E]; auto.
    + apply Qltb_false in E1. apply Qltb_false in E2.
      specialize (IH lo0 hi0 H0).
      destruct (range lo0 hi0 l) as [lo hi].
      destruct IH as (A & B & C & D & E).
      repeat split; try lra.
      * constructor; [lra|exact C].
      * destruct D as [-> | D]; auto.
      * destruct E as [-> | E]; auto.
Qed.

Lemma range_Bounds v l :
  Bounds (v :: l) (fst (range v v l)) (snd (range v v l)).
Proof.
  pose proof (range_spec l v v ltac:(lra)) as H.
  destruct (range v v l) as [lo hi]. cbn [fst snd].
  destruct H as (A & B & C & D & E).
  repeat split.
  - constructor; [lra | exact C].
  - destruct D as [-> | D].
    + left. reflexivity.
    + right. apply Exists_exists. exists lo. split; [exact D | reflexivity].
  - destruct E as [-> | E].
    + left. reflexivity.
    + right. apply Exists_exists. exists hi. split; [exact E | reflexivity].
Qed.

Lemma Bounds_unique l lo hi lo' hi' :
  Bounds l lo hi -> Bounds l lo' hi' -> lo == lo' /\ hi == hi'.
Proof.
  intros (F & EL & EH) (F' & EL' & EH').
  rewrite Forall_forall in F, F'.
  apply Exists_exists in EL, EH, EL', EH'.
  destruct EL as (a & Ia & Ea), EH as (b & Ib & Eb).
  destruct EL' as (a' & Ia' & Ea'), EH' as (b' & Ib' & Eb').
  pose proof (F _ Ia'). pose proof (F _ Ib'). pose proof (F' _ Ia). pose proof (F' _ Ib).
  split; lra.
Qed.

Lemma Bounds_shift {A} (f g : A -> qreal) (c : qreal) (l : list A) lo hi :
  (forall a, g a == f a + c) ->
  Bounds (map f l) lo hi -> Bounds (map g l) (lo + c) (hi + c).
Proof.
  intros Hfg (F & EL & EH).
  rewrite Forall_forall in F.
  apply Exists_exists in EL, EH.
  destruct EL as (a & Ia & Ea), EH as (b & Ib & Eb).
  apply in_map_iff in Ia, Ib.
  destruct Ia as (a0 & <- & Ia), Ib as (b0 & <- & Ib).
  repeat split.
  - apply Forall_forall. intros v Hv. apply in_map_iff in Hv.
    destruct Hv as (v0 & <- & Hv0).
    pose proof (F (f v0) (in_map f l v0 Hv0)). pose proof (Hfg v0). lra.
  - apply Exists_exists. exists (g a0). split; [apply in_map; exact Ia|].
    pose proof (Hfg a0). lra.
  - apply Exists_exists. exists (g b0). split; [apply in_map; exact Ib|].
    pose proof (Hfg b0). lra.
Qed.

Lemma Bounds_flip {A} (f g : A -> qreal) (c : qreal) (l : list A) lo hi :
  (forall a, g a == c - f a) ->
  Bounds (map f l) lo hi -> Bounds (map g l) (c - hi) (c - lo).
Proof.
  intros Hfg (F & EL & EH).
  rewrite Forall_forall in F.
  apply Exists_exists in EL, EH.
  destruct EL as (a & Ia & Ea), EH as (b & Ib & Eb).
  apply in_map_iff in Ia, Ib.
  destruct Ia as (a0 & <- & Ia), Ib as (b0 & <- & Ib).
  repeat split.
  - apply Forall_forall. intros v Hv. apply in_map_iff in Hv.
    destruct Hv as (v0 & <- & Hv0).
    pose proof (F (f v0) (in_map f l v0 Hv0)). pose proof (Hfg v0). lra.
  - apply Exists_exists. exists (g b0). split; [apply in_map; exact Ib|].
    pose proof (Hfg b0). lra.
  - apply Exists_exists. exists (g a0). split; [apply in_map; exact Ia|].
    pose proof (Hfg a0). lra.
Qed.

Lemma Extent_image {A} (f g : A -> qreal) (c : qreal) (l : list A) w w' :
  (forall a, g a == f a + c) \/ (forall a, g a == c - f a) ->
  Extent (map f l) w -> Extent (map g l) w' -> w == w'.
Proof.
  destruct l as [|a l]; cbn [map Extent].
  - intros _ H1 H2. lra.
  - intros Hfg (lo & hi & B & E) (lo' & hi' & B' & E').
    destruct Hfg as [Hfg | Hfg].
    + pose proof (Bounds_shift f g c (a :: l) lo hi Hfg B) as B2.
      destruct (Bounds_unique _ _ _ _ _ B' B2). lra.
    + pose proof (Bounds_flip f g c (a :: l) lo hi Hfg B) as B2.
      destruct (Bounds_unique _ _ _ _ _ B' B2). lra.
Qed.

Lemma boundingRect_Extent (ax : Axis) (s : QPolygonF.t) :
  Extent (map (coord ax) s) (dim ax (QPolygonF.boundingRect s)).
Proof.
  destruct s as [|v s].
  - destruct ax; cbn; reflexivity.
  - unfold QPolygonF.boundingRect. rewrite scan_range.
    pose proof (range_Bounds (QPointF.x v) (map QPointF.x s)) as Bx.
    pose proof (range_Bounds (QPointF.y v) (map QPointF.y s)) as By.
    destruct ax; cbn [map coord dim QRectF.width QRectF.height Extent].
    + eexists _, _. split; [exact Bx | reflexivity].
    + eexists _, _. split; [exact By | reflexivity].
Qed.

(** How the extent of a polygon along [ax'] follows from the extent of its
    preimage along [ax] under a map that shifts or mirrors that coordinate. *)
Lemma dim_image (ax ax' : Axis) (G : QPointF.t -> QPointF.t)
    (s : QPolygonF.t) (c : qreal) :
  (forall p, coord ax' (G p) == coord ax p + c) \/
  (forall p, coord ax' (G p) == c - coord ax p) ->
  dim ax' (QPolygonF.boundingRect (map G s)) ==
  dim ax (QPolygonF.boundingRect s).
Proof.
  intros HG. symmetry.
  apply (Extent_image (coord ax) (fun p => coord ax' (G p)) c s).
  - exact HG.
  - apply boundingRect_Extent.
  - pose proof (boundingRect_Extent ax' (map G s)) as H.
    rewrite map_map in H. exact H.
Qed.

Lemma dim_nonneg (ax : Axis) (s : QPolygonF.t) :
  0 <= dim ax (QPolygonF.boundingRect s).
Proof.
  pose proof (boundingRect_Extent ax s) as E.
  destruct s as [|v s]; cbn [map Extent] in E.
  - lra.
  - destruct E as (lo & hi & (F & _ & _) & E).
    inversion F as [|? ? Hv _]; subst. lra.
Qed.

(* ------------------------------------------------------------------ *)
(** ** The store of blocks *)

Lemma blocks_update_same p f s :
  CBlock.blocks (CBlock.update p f s) p = f (CBlock.blocks s p).
Proof. cbn. rewrite Nat.eqb_refl. reflexivity. Qed.

Lemma blocks_update_other p q f s :
  q <> p -> CBlock.blocks (CBlock.update p f s) q = CBlock.blocks s q.
Proof.
  intros Hn. cbn. destruct (Nat.eqb q p) eqn:E; [|reflexivity].
  apply Nat.eqb_eq in E. contradiction.
Qed.

Lemma setNewZValue_pos nZ b :
  CBlock.pos (CBlock.setNewZValue nZ b) = CBlock.pos b.
Proof.
  unfold CBlock.setNewZValue.
  destruct (nZ <? 0)%Z; [destruct (Qltb 1 (CBlock.zValue b))|]; reflexivity.
Qed.

Lemma lowering_keeps_positions l : forall s q,
  CBlock.pos
    (CBlock.blocks
       (fold_left (fun acc p => CBlock.update p (CBlock.setNewZValue (-1)) acc)
          l s) q) =
  CBlock.pos (CBlock.blocks s q).
Proof.
  induction l as [|p l IH]; intros s q; cbn [fold_left]; [reflexivity|].
  rewrite IH. cbn [CBlock.update CBlock.blocks].
  destruct (Nat.eqb q p) eqn:E; [|reflexivity].
  apply Nat.eqb_eq in E. subst q. apply setNewZValue_pos.
Qed.

(** A primary-button press on a block that is not a barrier starts the drag:
    it records the position the block has and leaves that position alone. *)
Lemma press_records_position this s :
  CBlock.m_bBarrier (CBlock.blocks s this) = false ->
  CBlock.m_posBlockSelected
    (CBlock.blocks (CBlock.mousePressEvent this LeftButton s) this) =
    CBlock.pos (CBlock.blocks s this) /\
  CBlock.pos (CBlock.blocks (CBlock.mousePressEvent this LeftButton s) this) =
    CBlock.pos (CBlock.blocks s this).
Proof.
  intros Hb. unfold CBlock.mousePressEvent. cbv zeta. rewrite Hb.
  cbn [isLeft andb negb]. rewrite !blocks_update_same.
  cbn [CBlock.m_posBlockSelected CBlock.set_posBlockSelected CBlock.pos
       CBlock.setZValue].
  rewrite lowering_keeps_positions, blocks_update_same.
  split; reflexivity.
Qed.

(* ------------------------------------------------------------------ *)
(** ** Outlines on whole cells

    Flipping and turning keep an outline on whole coordinates, and on whole
    cells the conversions to [qint32] are in range and change nothing: there
    the handlers add and subtract whole numbers only. *)

Lemma isWhole_comp a b : a == b -> isWhole a -> isWhole b.
Proof. intros E [k Hk]. exists k. rewrite <- E. exact Hk. Qed.


Lemma isWhole_plus a b : isWhole a -> isWhole b -> isWhole (a + b).
Proof.
  intros [i Hi] [j Hj]. exists (i + j)%Z. rewrite inject_Z_plus, Hi, Hj.
  reflexivity.
Qed.

Lemma isWhole_opp a : isWhole a -> isWhole (- a).
Proof.
  intros [i Hi]. exists (- i)%Z. rewrite inject_Z_opp, Hi. reflexivity.
Qed.

Lemma isWhole_minus a b : isWhole a -> isWhole b -> isWhole (a - b).
Proof. intros Ha Hb. apply isWhole_plus; [exact Ha | apply isWhole_opp, Hb]. Qed.

(** The boolean test of whole cells decides the predicate. *)
Lemma onCellsb_sound (p : QPolygonF.t) : onCellsb p = true -> onCells p.
Proof.
  unfold onCellsb, onCells. rewrite forallb_forall, Forall_forall.
  intros Hb v Hv. specialize (Hb v Hv).
  apply andb_true_iff in Hb. destruct Hb as [Hx Hy].
  assert (Hw : forall q, wholeCoordinateb q = true -> wholeCoordinate q).
  { intros q Hq. unfold wholeCoordinateb in Hq.
    apply andb_true_iff in Hq. destruct Hq as [E B].
    apply Qeq_bool_iff in E. apply Z.ltb_lt in B.
    exists (Qfloor q). split; assumption. }
  split; apply Hw; assumption.
Qed.

Lemma onCells_onWhole p : onCells p -> onWhole p.
Proof.
  unfold onCells, onWhole. apply Forall_impl.
  intros v [(i & Hi & _) (j & Hj & _)]. split; [exists i | exists j]; assumption.
Qed.

Lemma onWhole_coord ax p : onWhole p -> Forall isWhole (map (coord ax) p).
Proof.
  intros Hp. apply Forall_map. eapply Forall_impl; [|exact Hp].
  intros v [Hx Hy]. destruct ax; assumption.
Qed.

Lemma Bounds_whole l lo hi :
  Forall isWhole l -> Bounds l lo hi -> isWhole lo /\ isWhole hi.
Proof.
  intros Hl (_ & EL & EH). rewrite Forall_forall in Hl.
  apply Exists_exists in EL, EH.
  destruct EL as (a & Ia & Ea), EH as (b & Ib & Eb).
  split; [exact (isWhole_comp _ _ Ea (Hl _ Ia))
         | exact (isWhole_comp _ _ Eb (Hl _ Ib))].
Qed.

(** The bounding dimensions of an outline on whole coordinates are whole. *)
Lemma dim_whole ax p : onWhole p -> isWhole (dim ax (QPolygonF.boundingRect p)).
Proof.
  intros Hp. pose proof (boundingRect_Extent ax p) as E.
  pose proof (onWhole_coord ax p Hp) as Hl.
  destruct p as [|v p]; cbn [map Extent] in E.
  - exists 0%Z. exact E.
  - destruct E as (lo & hi & B & E).
    destruct (Bounds_whole _ _ _ Hl B) as [Hlo Hhi].
    apply (isWhole_comp (hi - lo)); [symmetry; exact E|].
    apply isWhole_minus; assumption.
Qed.

(** On whole cells the bounding dimensions fit a [qint32]. *)
Lemma dim_in_range ax p :
  onCells p -> dim ax (QPolygonF.boundingRect p) < 2147483648.
Proof.
  intros Hp. pose proof (boundingRect_Extent ax p) as E.
  destruct p as [|v p]; cbn [map Extent] in E.
  - rewrite E. reflexivity.
  - destruct E as (lo & hi & (_ & EL & EH) & E).
    assert (Hl : Forall (fun c => - (1073741824) < c < 1073741824)
                   (map (coord ax) (v :: p))).
    { apply Forall_map. eapply Forall_impl; [|exact Hp].
      intros q [(i & Hi & Bi) (j & Hj & Bj)].
      assert (Hb : forall k c, c == inject_Z k -> (Z.abs k < 2 ^ 30)%Z ->
                               - (1073741824) < c < 1073741824).
      { intros k c Hc Hk. rewrite Hc.
        change 1073741824 with (inject_Z (2 ^ 30)).
        rewrite <- inject_Z_opp, <- !Zlt_Qlt. lia. }
      destruct ax; [exact (Hb i _ Hi Bi) | exact (Hb j _ Hj Bj)]. }
    rewrite Forall_forall in Hl. apply Exists_exists in EL, EH.
    destruct EL as (a & Ia & Ea), EH as (b & Ib & Eb).
    pose proof (Hl _ Ia). pose proof (Hl _ Ib). lra.
Qed.

(* ------------------------------------------------------------------ *)
(** ** Flipping *)





Lemma press_right_shape this s :
  CBlock.m_bBarrier (CBlock.blocks s this) = false ->
  CBlock.m_PolyShape (CBlock.blocks (CBlock.mousePressEvent this RightButton s) this)
  = flipShape (CBlock.m_PolyShape (CBlock.blocks s this)) /\
  CBlock.m_bBarrier (CBlock.blocks (CBlock.mousePressEvent this RightButton s) this)
  = false.
Proof.
  intros Hb. unfold CBlock.mousePressEvent. rewrite Hb. cbn [isLeft isRight andb negb].
  rewrite blocks_update_same. cbn. split; [reflexivity | exact Hb].
Qed.



(* ------------------------------------------------------------------ *)
(** ** Turning with the wheel *)



Lemma truncated_in_range d :
  0 <= d -> d < 2147483648 -> truncated d = inject_Z (Qtruncate d).
Proof.
  intros H0 H1. unfold truncated, int_of_qreal, qreal_of_int.
  rewrite wrap_int_id; [reflexivity|].
  destruct (proj1 (Qtruncate_bounds d) H0) as [Ha Hb].
  unfold in_int. split.
  - assert (inject_Z (-1) < inject_Z (Qtruncate d))
      by (change (inject_Z (-1)) with (-1 # 1); lra).
    apply Z_of_Q_lt in H. lia.
  - apply Z_of_Q_lt. change (inject_Z (2 ^ 31)) with 2147483648. lra.
Qed.

Lemma Tracks_start s0 : Tracks s0 s0 (fun v => v).
Proof.
  exists (fun v => v). split; [symmetry; apply map_id|].
  intros v; split; reflexivity.
Qed.




Section Wheel.
Context `{QtServices CBlock.t}.

Lemma wheel_vertical_shape this delta s :
  CBlock.m_bBarrier (CBlock.blocks s this) = false ->
  CBlock.m_PolyShape (CBlock.blocks (CBlock.wheelEvent this Vertical delta s) this)
  = wheelShape delta (CBlock.m_PolyShape (CBlock.blocks s this)) /\
  CBlock.m_bBarrier (CBlock.blocks (CBlock.wheelEvent this Vertical delta s) this)
  = false.
Proof.
  intros Hb. unfold CBlock.wheelEvent, wheelShape. rewrite Hb.
  cbn [isVertical andb negb].
  destruct (delta <? 0)%Z; rewrite blocks_update_same; cbn;
    (split; [reflexivity | exact Hb]).
Qed.

Lemma wheelShape_neg delta s0 s F :
  (delta < 0)%Z -> Tracks s0 s F ->
  Tracks s0 (wheelShape delta s)
    (fun v => quarterL (truncated (QRectF.height (QPolygonF.boundingRect s))) (F v)).
Proof.
  intros Hd (G & -> & HG). apply Z.ltb_lt in Hd.
  unfold wheelShape. rewrite Hd.
  unfold QPolygonF.translate, QTransform.map. rewrite !map_map.
  eexists. split; [reflexivity|].
  intros v. destruct (HG v) as [Hx Hy]. split; cbn; lra.
Qed.

Lemma wheelShape_nonneg delta s0 s F :
  (0 <= delta)%Z -> Tracks s0 s F ->
  Tracks s0 (wheelShape delta s)
    (fun v => quarterR (truncated (QRectF.width (QPolygonF.boundingRect s))) (F v)).
Proof.
  intros Hd (G & -> & HG).
  assert (Hd' : (delta <? 0)%Z = false) by (apply Z.ltb_ge; exact Hd).
  unfold wheelShape. rewrite Hd'.
  unfold QPolygonF.translate, QTransform.map. rewrite !map_map.
  eexists. split; [reflexivity|].
  intros v. destruct (HG v) as [Hx Hy]. split; cbn; lra.
Qed.









End Wheel.

(* ------------------------------------------------------------------ *)
(** ** Collision check *)

Lemma path_scan_ordered p : forall a b c d, a <= b -> c <= d ->
  let '(a', b', c', d') := QPainterPath.scan p a b c d in a' <= b' /\ c' <= d'.
Proof.
  induction p as [|e p IH]; intros a b c d Hab Hcd; cbn.
  - split; assumption.
  - unfold QPainterPath.stretch.
    destruct (Qltb b (QPainterPath.ex e)) eqn:E1;
      [apply Qltb_true in E1 | apply Qltb_false in E1;
        destruct (Qltb (QPainterPath.ex e) a) eqn:E2;
        [apply Qltb_true in E2 | apply Qltb_false in E2]];
    (destruct (Qltb d (QPainterPath.ey e)) eqn:E3;
      [apply Qltb_true in E3 | apply Qltb_false in E3;
        destruct (Qltb (QPainterPath.ey e) c) eqn:E4;
        [apply Qltb_true in E4 | apply Qltb_false in E4]]);
    apply IH; lra.
Qed.

Lemma path_boundingRect_nonneg p :
  0 <= QRectF.width (QPainterPath.boundingRect p) /\
  0 <= QRectF.height (QPainterPath.boundingRect p).
Proof.
  destruct p as [|e p]; cbn.
  - split; lra.
  - pose proof (path_scan_ordered p (QPainterPath.ex e) (QPainterPath.ex e)
                  (QPainterPath.ey e) (QPainterPath.ey e)
                  ltac:(lra) ltac:(lra)) as Hs.
    destruct (QPainterPath.scan p _ _ _ _) as [[[a b] c] d].
    cbn. destruct Hs. split; lra.
Qed.

Section Collision.
Context `{QtServices CBlock.t}.

Lemma overlaps_iff self thisPath block :
  CBlock.overlaps self thisPath block = true <->
  ~ QRectF.width
      (QPainterPath.boundingRect (CBlock.intersectedPath self thisPath block)) == 0 /\
  ~ QRectF.height
      (QPainterPath.boundingRect (CBlock.intersectedPath self thisPath block)) == 0.
Proof.
  unfold CBlock.overlaps, QSizeF.isEmpty, QRectF.size. cbn [QSizeF.width QSizeF.height].
  destruct (path_boundingRect_nonneg (CBlock.intersectedPath self thisPath block))
    as [Hw Hh].
  set (w := QRectF.width _) in *. set (h := QRectF.height _) in *.
  rewrite negb_true_iff, orb_false_iff. split.
  - intros [E1 E2]. apply Qle_bool_false in E1, E2. split; lra.
  - intros [N1 N2]. split.
    + destruct (Qle_bool w 0) eqn:E; [|reflexivity].
      apply Qle_bool_iff in E. exfalso. apply N1. lra.
    + destruct (Qle_bool h 0) eqn:E; [|reflexivity].
      apply Qle_bool_iff in E. exfalso. apply N2. lra.
Qed.

Lemma isCandidate_iff self block :
  CBlock.isCandidate self block = true <->
  CBlock.getIndex block <> CBlock.m_nID self /\ collidesWithItem self block = true.
Proof.
  unfold CBlock.isCandidate. rewrite andb_true_iff, negb_true_iff, Z.eqb_neq.
  reflexivity.
Qed.

Lemma scanBlocks_true_iff store self thisPath l :
  CBlock.scanBlocks store self thisPath l = true <->
  exists p, In p l /\ CBlock.isCandidate self (store p) = true /\
            CBlock.overlaps self thisPath (store p) = true.
Proof.
  induction l as [|q l IH]; cbn.
  - split; [discriminate | intros (p & [] & _)].
  - destruct (CBlock.isCandidate self (store q)) eqn:Ec;
      [destruct (CBlock.overlaps self thisPath (store q)) eqn:Eo|].
    + split; [|reflexivity]. intros _. exists q. auto.
    + rewrite IH. split.
      * intros (p & Hp & Hc & Ho). exists p. auto.
      * intros (p & [<- | Hp] & Hc & Ho); [congruence|]. exists p. auto.
    + rewrite IH. split.
      * intros (p & Hp & Hc & Ho). exists p. auto.
      * intros (p & [<- | Hp] & Hc & Ho); [congruence|]. exists p. auto.
Qed.

Lemma scanBlocks_ext store store' self thisPath l :
  (forall p, store p = store' p) ->
  CBlock.scanBlocks store self thisPath l = CBlock.scanBlocks store' self thisPath l.
Proof.
  intros E. induction l as [|q l IH]; cbn; [reflexivity|].
  rewrite <- E, IH. reflexivity.
Qed.

Lemma scanBlocksTrace_result store self thisPath l :
  snd (CBlock.scanBlocksTrace store self thisPath l) =
  CBlock.scanBlocks store self thisPath l.
Proof.
  induction l as [|q l IH]; cbn; [reflexivity|].
  destruct (CBlock.isCandidate self (store q));
    [destruct (CBlock.overlaps self thisPath (store q))|]; cbn.
  - reflexivity.
  - destruct (CBlock.scanBlocksTrace store self thisPath l). exact IH.
  - exact IH.
Qed.

Lemma scanBlocksTrace_seen store self thisPath l p :
  In p (fst (CBlock.scanBlocksTrace store self thisPath l)) ->
  In p l /\ CBlock.isCandidate self (store p) = true.
Proof.
  induction l as [|q l IH]; cbn; [intros []|].
  destruct (CBlock.isCandidate self (store q)) eqn:Ec;
    [destruct (CBlock.overlaps self thisPath (store q))|]; cbn.
  - intros [<- | []]. auto.
  - destruct (CBlock.scanBlocksTrace store self thisPath l) as [seen r].
    cbn in *. intros [<- | Hp]; [auto|]. destruct (IH Hp). auto.
  - intros Hp. destruct (IH Hp). auto.
Qed.

Lemma scanBlocksTrace_first store self thisPath l :
  CBlock.scanBlocks store self thisPath l = true ->
  exists l1 p l2,
    l = l1 ++ p :: l2 /\
    hits store self thisPath p = true /\
    (forall q, In q l1 -> hits store self thisPath q = false) /\
    fst (CBlock.scanBlocksTrace store self thisPath l) =
    filter (fun q => CBlock.isCandidate self (store q)) l1 ++ [p].
Proof.
  unfold hits.
  induction l as [|q l IH]; cbn; [discriminate|].
  destruct (CBlock.isCandidate self (store q)) eqn:Ec;
    [destruct (CBlock.overlaps self thisPath (store q)) eqn:Eo|].
  - intros _. exists [], q, l. cbn. rewrite Ec, Eo. repeat split; auto.
    intros ? [].
  - intros Hr. destruct (IH Hr) as (l1 & p & l2 & -> & Hp & Hl1 & Hseen).
    exists (q :: l1), p, l2. cbn. rewrite Ec.
    destruct (CBlock.scanBlocksTrace store self thisPath (l1 ++ p :: l2))
      as [seen r]. cbn in *. subst seen. repeat split; auto.
    intros q' [<- | Hq]; [rewrite Ec, Eo; reflexivity | auto].
  - intros Hr. destruct (IH Hr) as (l1 & p & l2 & -> & Hp & Hl1 & Hseen).
    exists (q :: l1), p, l2. cbn. rewrite Ec. repeat split; auto.
    intros q' [<- | Hq]; [rewrite Ec; reflexivity | auto].
Qed.

Lemma scanBlocks_false_iff store self thisPath l :
  CBlock.scanBlocks store self thisPath l = false <->
  forall p, In p l -> hits store self thisPath p = false.
Proof.
  unfold hits. split.
  - intros Hf p Hp.
    destruct (CBlock.isCandidate self (store p) &&
              CBlock.overlaps self thisPath (store p)) eqn:E; [|reflexivity].
    apply andb_true_iff in E. destruct E as [Ec Eo].
    assert (CBlock.scanBlocks store self thisPath l = true)
      by (apply scanBlocks_true_iff; exists p; auto).
    congruence.
  - intros Hall.
    destruct (CBlock.scanBlocks store self thisPath l) eqn:E; [|reflexivity].
    apply scanBlocks_true_iff in E. destruct E as (p & Hp & Ec & Eo).
    specialize (Hall p Hp). rewrite Ec, Eo in Hall. discriminate.
Qed.

Lemma isCandidate_self self : CBlock.isCandidate self self = false.
Proof.
  unfold CBlock.isCandidate, CBlock.getIndex. rewrite Z.eqb_refl. reflexivity.
Qed.

(** C1 (amended).  [checkCollision] reports a collision exactly when the
    list holds a block whose id differs from that of [this], which passes
    the broad-phase test [collidesWithItem], and for which the bounding
    rectangle of the simplified intersection of the candidate path with its
    outline in board coordinates has non-zero width and non-zero height.  In
    particular, when every such rectangle has zero width or zero height --
    outlines that only touch along an edge or at a point -- no collision is
    reported. *)
Theorem checkCollision_iff_overlapping_peer this thisPath s :
  (CBlock.checkCollision this thisPath s = true <->
   exists p,
     In p (CBlock.m_pListBlocks (CBlock.blocks s this)) /\
     CBlock.getIndex (CBlock.blocks s p) <> CBlock.m_nID (CBlock.blocks s this) /\
     collidesWithItem (CBlock.blocks s this) (CBlock.blocks s p) = true /\
     ~ QRectF.width
         (QPainterPath.boundingRect
            (CBlock.intersectedPath (CBlock.blocks s this) thisPath
               (CBlock.blocks s p))) == 0 /\
     ~ QRectF.height
         (QPainterPath.boundingRect
            (CBlock.intersectedPath (CBlock.blocks s this) thisPath
               (CBlock.blocks s p))) == 0) /\
  ((forall p,
      In p (CBlock.m_pListBlocks (CBlock.blocks s this)) ->
      QRectF.width
        (QPainterPath.boundingRect
           (CBlock.intersectedPath (CBlock.blocks s this) thisPath
              (CBlock.blocks s p))) == 0 \/
      QRectF.height
        (QPainterPath.boundingRect
           (CBlock.intersectedPath (CBlock.blocks s this) thisPath
              (CBlock.blocks s p))) == 0) ->
   CBlock.checkCollision this thisPath s = false).
Proof.
  assert (Hiff : CBlock.checkCollision this thisPath s = true <->
   exists p,
     In p (CBlock.m_pListBlocks (CBlock.blocks s this)) /\
     CBlock.getIndex (CBlock.blocks s p) <> CBlock.m_nID (CBlock.blocks s this) /\
     collidesWithItem (CBlock.blocks s this) (CBlock.blocks s p) = true /\
     ~ QRectF.width
         (QPainterPath.boundingRect
            (CBlock.intersectedPath (CBlock.blocks s this) thisPath
               (CBlock.blocks s p))) == 0 /\
     ~ QRectF.height
         (QPainterPath.boundingRect
            (CBlock.intersectedPath (CBlock.blocks s this) thisPath
               (CBlock.blocks s p))) == 0).
  { unfold CBlock.checkCollision. cbv zeta. rewrite scanBlocks_true_iff. split.
    - intros (p & Hp & Hc & Ho). exists p.
      apply isCandidate_iff in Hc. apply overlaps_iff in Ho. tauto.
    - intros (p & Hp & Hn & Hc & Hw & Hh). exists p.
      rewrite isCandidate_iff, overlaps_iff. tauto. }
  split; [exact Hiff|].
  intros Hzero.
  destruct (CBlock.checkCollision this thisPath s) eqn:E; [|reflexivity].
  exfalso. destruct (proj1 Hiff eq_refl) as (p & Hp & _ & _ & Hw & Hh).
  destruct (Hzero p Hp); contradiction.
Qed.

(** The two tests of the loop body amount to a collision as the
    specification words it. *)
Lemma hits_iff_Collides store self thisPath p :
  hits store self thisPath p = true <-> Collides store self thisPath p.
Proof.
  unfold hits, Collides. rewrite andb_true_iff, isCandidate_iff, overlaps_iff.
  unfold CBlock.getIndex, CBlock.intersectedPath, CBlock.collidingPath,
    CBlock.shape, qreal_of_int, QPainterPath.empty. cbv zeta.
  tauto.
Qed.

Lemma hits_false_iff_not_Collides store self thisPath p :
  hits store self thisPath p = false <-> ~ Collides store self thisPath p.
Proof.
  rewrite <- hits_iff_Collides.
  destruct (hits store self thisPath p); split; intros; congruence.
Qed.

(** The loop consults the broad-phase test only for pairs of different
    id: another implementation of it that differs on pairs of equal id
    gives the same answer. *)
Lemma scanBlocks_never_asks_about_equal_ids (K' : QtServices CBlock.t)
    store self thisPath l :
  (forall a b, @intersected _ K' a b = @intersected _ H a b) ->
  (forall a, @simplified _ K' a = @simplified _ H a) ->
  (forall a b, CBlock.m_nID b <> CBlock.m_nID a ->
               @collidesWithItem _ K' a b = @collidesWithItem _ H a b) ->
  @CBlock.scanBlocks K' store self thisPath l =
  @CBlock.scanBlocks H store self thisPath l.
Proof.
  intros Hi Hs Hc. induction l as [|p l IH]; [reflexivity|].
  cbn [CBlock.scanBlocks]. rewrite IH.
  assert (Ecand : @CBlock.isCandidate K' self (store p) =
                  @CBlock.isCandidate H self (store p)).
  { unfold CBlock.isCandidate, CBlock.getIndex.
    destruct (CBlock.m_nID (store p) =? CBlock.m_nID self)%Z eqn:E.
    - reflexivity.
    - apply Z.eqb_neq in E. cbn [negb andb]. apply Hc. exact E. }
  assert (Eover : @CBlock.overlaps K' self thisPath (store p) =
                  @CBlock.overlaps H self thisPath (store p)).
  { unfold CBlock.overlaps, CBlock.intersectedPath. rewrite Hs, Hi.
    reflexivity. }
  rewrite Ecand, Eover. reflexivity.
Qed.

(** C3.  Whatever the list holds, [checkCollision] answers [true] exactly
    when some entry collides with the candidate path -- its id differs, it
    passes the broad-phase test and the simplified intersection has a
    bounding rectangle of non-zero width and height -- and [false] exactly
    when none does.  The block itself never collides; the scan never
    intersects the candidate path with the outline of [this], nor of any
    entry that bears its id, and it never asks the broad-phase test about
    two blocks of equal id.  When the answer is [true] the scan stops at
    the first colliding entry: it has intersected only entries before it
    and, last, that entry. *)
Theorem checkCollision_excludes_self_and_stops_at_first_hit this thisPath s :
  (CBlock.checkCollision this thisPath s = true <->
   exists p, In p (CBlock.m_pListBlocks (CBlock.blocks s this)) /\
             Collides (CBlock.blocks s) (CBlock.blocks s this) thisPath p) /\
  (CBlock.checkCollision this thisPath s = false <->
   forall p, In p (CBlock.m_pListBlocks (CBlock.blocks s this)) ->
             ~ Collides (CBlock.blocks s) (CBlock.blocks s this) thisPath p) /\
  ~ Collides (CBlock.blocks s) (CBlock.blocks s this) thisPath this /\
  (forall K' : QtServices CBlock.t,
     (forall a b, @intersected _ K' a b = @intersected _ H a b) ->
     (forall a, @simplified _ K' a = @simplified _ H a) ->
     (forall a b, CBlock.m_nID b <> CBlock.m_nID a ->
                  @collidesWithItem _ K' a b = @collidesWithItem _ H a b) ->
     @CBlock.checkCollision K' this thisPath s =
     @CBlock.checkCollision H this thisPath s) /\
  snd (CBlock.checkCollisionTrace this thisPath s) =
    CBlock.checkCollision this thisPath s /\
  ~ In this (fst (CBlock.checkCollisionTrace this thisPath s)) /\
  (forall p, In p (fst (CBlock.checkCollisionTrace this thisPath s)) ->
             CBlock.m_nID (CBlock.blocks s p) <>
             CBlock.m_nID (CBlock.blocks s this)) /\
  (CBlock.checkCollision this thisPath s = true ->
   exists l1 p l2 seen,
     CBlock.m_pListBlocks (CBlock.blocks s this) = l1 ++ p :: l2 /\
     Collides (CBlock.blocks s) (CBlock.blocks s this) thisPath p /\
     (forall q, In q l1 ->
        ~ Collides (CBlock.blocks s) (CBlock.blocks s this) thisPath q) /\
     fst (CBlock.checkCollisionTrace this thisPath s) = seen ++ [p] /\
     (forall q, In q seen -> In q l1)).
Proof.
  unfold CBlock.checkCollisionTrace, CBlock.checkCollision. cbv zeta.
  set (self := CBlock.blocks s this). set (store := CBlock.blocks s).
  set (l := CBlock.m_pListBlocks self).
  assert (Hseen : forall p,
             In p (fst (CBlock.scanBlocksTrace store self thisPath l)) ->
             CBlock.m_nID (store p) <> CBlock.m_nID self).
  { intros p Hp. apply scanBlocksTrace_seen in Hp. destruct Hp as [_ Hc].
    apply isCandidate_iff in Hc. exact (proj1 Hc). }
  split; [|split; [|split; [|split; [|split; [|split; [|split]]]]]].
  - rewrite scanBlocks_true_iff. split.
    + intros (p & Hp & Hc & Ho). exists p. split; [exact Hp|].
      apply hits_iff_Collides. unfold hits. rewrite Hc, Ho. reflexivity.
    + intros (p & Hp & Hcol). exists p. split; [exact Hp|].
      apply hits_iff_Collides in Hcol. unfold hits in Hcol.
      apply andb_true_iff in Hcol. exact Hcol.
  - rewrite scanBlocks_false_iff. split.
    + intros Hall p Hp. apply hits_false_iff_not_Collides. exact (Hall p Hp).
    + intros Hall p Hp. apply hits_false_iff_not_Collides. exact (Hall p Hp).
  - intros (Hid & _). apply Hid. reflexivity.
  - intros K' Hi Hs Hc.
    apply scanBlocks_never_asks_about_equal_ids; assumption.
  - apply scanBlocksTrace_result.
  - intros Hin. apply (Hseen this Hin). reflexivity.
  - exact Hseen.
  - intros Ht.
    destruct (scanBlocksTrace_first store self thisPath l Ht)
      as (l1 & p & l2 & El & Hp & Hl1 & Etr).
    exists l1, p, l2,
      (filter (fun q => CBlock.isCandidate self (store q)) l1).
    split; [exact El|]. split; [apply hits_iff_Collides; exact Hp|].
    split; [intros q Hq; apply hits_false_iff_not_Collides; exact (Hl1 q Hq)|].
    split; [exact Etr|].
    intros q Hq. apply filter_In in Hq. exact (proj1 Hq).
Qed.

(** C2.  A primary-button release on a block that is not a barrier clears
    the pressed flag, snaps the position to the grid, emits
    [incrementMoves] whatever follows, and checks the snapped outline for
    collisions: on a collision the position becomes the snapped
    [m_posBlockSelected] and [checkPuzzleSolved] is not emitted; otherwise
    the snapped position stays and [checkPuzzleSolved] is emitted after
    [incrementMoves].  No other block changes. *)
Theorem release_commits_or_rolls_back this s :
  CBlock.m_bBarrier (CBlock.blocks s this) = false ->
  let self := CBlock.blocks s this in
  let snapped := CBlock.snapToGrid self (CBlock.pos self) in
  let placed :=
    CBlock.update this
      (fun b => CBlock.setPos snapped (CBlock.set_bMousePressed false b)) s in
  let thisPath :=
    QPainterPath.translate
      (QPointF.mk (QPointF.x snapped / qreal_of_int (CBlock.m_nGrid self))
                  (QPointF.y snapped / qreal_of_int (CBlock.m_nGrid self)))
      (CBlock.shape self) in
  let collision := CBlock.checkCollision this thisPath placed in
  let s' := CBlock.mouseReleaseEvent this LeftButton s in
  CBlock.emitted s' =
    CBlock.emitted s ++
      incrementMoves :: (if collision then [] else [checkPuzzleSolved]) /\
  CBlock.pos (CBlock.blocks s' this) =
    (if collision then CBlock.snapToGrid self (CBlock.m_posBlockSelected self)
     else snapped) /\
  CBlock.m_bMousePressed (CBlock.blocks s' this) = false /\
  (forall q, q <> this -> CBlock.blocks s' q = CBlock.blocks s q).
Proof.
  intros Hb self snapped placed thisPath collision s'.
  unfold s', CBlock.mouseReleaseEvent. cbv zeta. rewrite Hb.
  cbn [isLeft andb negb].
  rewrite !blocks_update_same. fold self.
  change (CBlock.m_nGrid (CBlock.setPos _ _)) with (CBlock.m_nGrid self).
  change (CBlock.pos (CBlock.set_bMousePressed false self)) with (CBlock.pos self).
  change (CBlock.snapToGrid (CBlock.set_bMousePressed false self))
    with (CBlock.snapToGrid self).
  fold snapped.
  change (CBlock.pos (CBlock.setPos snapped _)) with snapped.
  change (CBlock.shape (CBlock.setPos snapped _)) with (CBlock.shape self).
  fold thisPath.
  match goal with
  | |- context [if CBlock.checkCollision this thisPath ?sc then _ else _] =>
      assert (Ec : CBlock.checkCollision this thisPath sc = collision)
  end.
  { unfold collision, CBlock.checkCollision. cbv zeta.
    assert (Hst : forall p,
      CBlock.blocks (CBlock.emit incrementMoves
        (CBlock.update this
           (fun b => CBlock.setPos (CBlock.snapToGrid b (CBlock.pos b)) b)
           (CBlock.update this (CBlock.set_bMousePressed false) s))) p =
      CBlock.blocks placed p).
    { intros p. cbn. destruct (Nat.eqb p this) eqn:E; [|reflexivity].
      rewrite Nat.eqb_refl. reflexivity. }
    rewrite (Hst this). apply scanBlocks_ext. exact Hst. }
  rewrite Ec. destruct collision;
    cbn [CBlock.blocks CBlock.emit CBlock.update CBlock.emitted];
    rewrite !Nat.eqb_refl.
  - repeat split.
    intros q Hq. apply Nat.eqb_neq in Hq. rewrite Hq. reflexivity.
  - repeat split.
    + rewrite <- app_assoc. reflexivity.
    + intros q Hq. apply Nat.eqb_neq in Hq. rewrite Hq. reflexivity.
Qed.

(** C8.  A press or release of any button and a wheel gesture of any
    orientation, delivered to a barrier, leave the scene as it was; in
    particular the position, the outline and the z value of the barrier. *)
Theorem barrier_ignores_gestures this (g : Gesture) s :
  CBlock.m_bBarrier (CBlock.blocks s this) = true ->
  deliver this g s = s /\
  CBlock.pos (CBlock.blocks (deliver this g s) this) =
    CBlock.pos (CBlock.blocks s this) /\
  CBlock.m_PolyShape (CBlock.blocks (deliver this g s) this) =
    CBlock.m_PolyShape (CBlock.blocks s this) /\
  CBlock.zValue (CBlock.blocks (deliver this g s) this) =
    CBlock.zValue (CBlock.blocks s this).
Proof.
  intros Hb.
  assert (E : deliver this g s = s).
  { destruct g as [b | b | o d]; cbn [deliver].
    - unfold CBlock.mousePressEvent. rewrite Hb.
      cbn [negb]. rewrite !andb_false_r. reflexivity.
    - unfold CBlock.mouseReleaseEvent. rewrite Hb.
      cbn [negb]. rewrite !andb_false_r. reflexivity.
    - unfold CBlock.wheelEvent. rewrite Hb.
      cbn [negb]. rewrite !andb_false_r. reflexivity. }
  rewrite E. repeat split; reflexivity.
Qed.

End Collision.

(* ------------------------------------------------------------------ *)
(** ** Construction *)

(** C9.  The constructor is a total function of its arguments: whatever the
    outline, it yields the object with every member set the same way.  It
    logs the warning exactly when the outline is not closed; an outline
    that is not closed is thus reported and the object is built all the
    same. *)
Theorem create_reports_open_shape_and_succeeds
    (nID : Z) (shape : QPolygonF.t) (nGrid : Z) (pListBlocks : list CBlock.ptr)
    (posTopLeft : QPointF.t) (bBarrier : bool) :
  fst (CBlock.create nID shape nGrid pListBlocks posTopLeft bBarrier) =
    CBlock.mk nID shape nGrid pListBlocks bBarrier false QTransform.identity
      QPointF.null (QPointF.mul posTopLeft (qreal_of_int nGrid)) 0
      (qreal_of_int nGrid) (negb bBarrier) /\
  (QPolygonF.isClosed shape = false <->
   In (WarningShapeNotClosed nID)
      (snd (CBlock.create nID shape nGrid pListBlocks posTopLeft bBarrier))).
Proof.
  unfold CBlock.create. cbn [fst snd]. split.
  - destruct bBarrier; reflexivity.
  - destruct (QPolygonF.isClosed shape); cbn [negb]; split.
    + discriminate.
    + intros Hin. apply in_app_or in Hin. destruct Hin as [Hin | []].
      destruct bBarrier; cbn in Hin; destruct Hin as [Hd | []]; discriminate.
    + intros _. apply in_or_app. right. left. reflexivity.
    + reflexivity.
Qed.

(* ------------------------------------------------------------------ *)
(** ** Snapping twice *)

(** C7 (amended).  For a grid size from 1 to 65535 and a point whose
    coordinates lie within 2147418112 (2^31 - 2^16) of the origin, snapping
    a snapped point gives the same point. *)
Theorem snapToGrid_idempotent_in_range (b : CBlock.t) (p : QPointF.t) :
  (0 < CBlock.m_nGrid b <= 65535)%Z ->
  Qabs (QPointF.x p) <= 2147418112 ->
  Qabs (QPointF.y p) <= 2147418112 ->
  CBlock.snapToGrid b (CBlock.snapToGrid b p) = CBlock.snapToGrid b p.
Proof.
  intros Hg Hx Hy. unfold CBlock.snapToGrid, qreal_of_int. cbn [QPointF.x QPointF.y].
  destruct (snap_coordinate (CBlock.m_nGrid b) (QPointF.x p) Hg Hx) as [Hx1 Hx2].
  destruct (snap_coordinate (CBlock.m_nGrid b) (QPointF.y p) Hg Hy) as [Hy1 Hy2].
  cbv zeta in Hx1, Hx2, Hy1, Hy2.
  rewrite Hx1, Hy1, Hx2, Hy2. reflexivity.
Qed.

(* ------------------------------------------------------------------ *)
(** ** The statements at concrete scenes *)

Import Examples.

(** [blockA] released on the cell of [blockB] goes back to where it was
    picked up; released on the free cell next to it, it stays, although the
    two squares share an edge. *)
Lemma release_commits_or_rolls_back_witness :
  (CBlock.emitted
     (@CBlock.mouseReleaseEvent Box.services 0%nat LeftButton
        (draggedTo (pt 52 3))) = [incrementMoves] /\
   CBlock.pos
     (CBlock.blocks
        (@CBlock.mouseReleaseEvent Box.services 0%nat LeftButton
           (draggedTo (pt 52 3))) 0%nat) = pt 0 0) /\
  (CBlock.emitted
     (@CBlock.mouseReleaseEvent Box.services 0%nat LeftButton
        (draggedTo (pt 38 3))) = [incrementMoves; checkPuzzleSolved] /\
   CBlock.pos
     (CBlock.blocks
        (@CBlock.mouseReleaseEvent Box.services 0%nat LeftButton
           (draggedTo (pt 38 3))) 0%nat) = pt 40 0).
Proof.
  split.
  - destruct (@release_commits_or_rolls_back Box.services 0%nat
                (draggedTo (pt 52 3)) eq_refl) as (E1 & E2 & _).
    rewrite E1, E2. split; vm_compute; reflexivity.
  - destruct (@release_commits_or_rolls_back Box.services 0%nat
                (draggedTo (pt 38 3)) eq_refl) as (E1 & E2 & _).
    rewrite E1, E2. split; vm_compute; reflexivity.
Defined.





Lemma snapToGrid_idempotent_in_range_witness :
  CBlock.snapToGrid blockA (CBlock.snapToGrid blockA (pt 52 3)) =
  CBlock.snapToGrid blockA (pt 52 3).
Proof.
  apply snapToGrid_idempotent_in_range.
  - vm_compute. split; [reflexivity | discriminate].
  - vm_compute. discriminate.
  - vm_compute. discriminate.
Defined.

Lemma barrier_ignores_gestures_witness :
  @deliver Box.services 2%nat (Press LeftButton) scene = scene /\
  @deliver Box.services 2%nat (Release LeftButton) scene = scene /\
  @deliver Box.services 2%nat (Wheel Vertical 120) scene = scene.
Proof.
  split; [|split].
  - exact (proj1 (@barrier_ignores_gestures Box.services 2%nat
                    (Press LeftButton) scene eq_refl)).
  - exact (proj1 (@barrier_ignores_gestures Box.services 2%nat
                    (Release LeftButton) scene eq_refl)).
  - exact (proj1 (@barrier_ignores_gestures Box.services 2%nat
                    (Wheel Vertical 120) scene eq_refl)).
Defined.

Lemma create_reports_open_shape_and_succeeds_witness :
  In (WarningShapeNotClosed 7)
     (snd (CBlock.create 7 openShape 10 registry (pt 1 1) false)) /\
  CBlock.pos (fst (CBlock.create 7 openShape 10 registry (pt 1 1) false)) =
  pt 10 10.
Proof.
  destruct (create_reports_open_shape_and_succeeds 7 openShape 10 registry
              (pt 1 1) false) as [Hb Hw].
  split; [apply Hw; reflexivity | rewrite Hb; reflexivity].
Defined.



(** [blockA] held over the cell of [blockB]: the scan meets [blockA]
    itself first and passes it by, then finds [blockB], answers [true] and
    looks no further. *)
Lemma checkCollision_excludes_self_and_stops_at_first_hit_witness :
  @CBlock.checkCollision Box.services 0%nat Examples.onB
    (Examples.draggedTo (Examples.pt 50 0)) = true /\
  @CBlock.checkCollisionTrace Box.services 0%nat Examples.onB
    (Examples.draggedTo (Examples.pt 50 0)) = ([1%nat], true).
Proof.
  split; [|vm_compute; reflexivity].
  apply (proj1 (@checkCollision_excludes_self_and_stops_at_first_hit
                  Box.services 0%nat Examples.onB
                  (Examples.draggedTo (Examples.pt 50 0)))).
  exists 1%nat. split; [right; left; reflexivity|].
  split; [vm_compute; discriminate|].
  split; [vm_compute; reflexivity|].
  split; intros E; vm_compute in E; discriminate.
Defined.

(* ------------------------------------------------------------------ *)
(** ** Where the statements of the specification stop holding *)

(** C1 as the specification states it fails: [blockA] rests five cells
    away from [blockB], so the broad-phase test rejects the pair, yet the
    candidate path laid on the cell of [blockB] meets its outline in a full
    unit square; [checkCollision] answers [false]. *)
Lemma checkCollision_needs_broad_phase :
  In 1%nat (CBlock.m_pListBlocks (CBlock.blocks scene 0%nat)) /\
  CBlock.getIndex (CBlock.blocks scene 1%nat) <>
    CBlock.m_nID (CBlock.blocks scene 0%nat) /\
  ~ QRectF.width
      (QPainterPath.boundingRect
         (@CBlock.intersectedPath Box.services (CBlock.blocks scene 0%nat) onB
            (CBlock.blocks scene 1%nat))) == 0 /\
  ~ QRectF.height
      (QPainterPath.boundingRect
         (@CBlock.intersectedPath Box.services (CBlock.blocks scene 0%nat) onB
            (CBlock.blocks scene 1%nat))) == 0 /\
  @CBlock.checkCollision Box.services 0%nat onB scene = false.
Proof.
  split; [right; left; reflexivity|].
  split; [vm_compute; discriminate|].
  split; [intros E; vm_compute in E; discriminate|].
  split; [intros E; vm_compute in E; discriminate|].
  vm_compute. reflexivity.
Qed.


(** C7 as the specification states it fails on a grid of 3 pixels at
    x = 2^31 + 1: the product that gives the snapped coordinate leaves the
    range of [int]. *)
Lemma snapToGrid_not_idempotent_out_of_range :
  CBlock.snapToGrid fineF (CBlock.snapToGrid fineF (pt 2147483649 0)) <>
  CBlock.snapToGrid fineF (pt 2147483649 0).
Proof. vm_compute. discriminate. Qed.



(** On whole cells the doubles are exact: two flips and four turns of
    either direction return the domino, as the rational model says. *)
Lemma domino_returns_in_doubles :
  Double.samePolygonb (Double.flip (Double.flip Double.domino)) Double.domino
    = true /\
  Double.samePolygonb
    (Double.wheel true (Double.wheel true
       (Double.wheel true (Double.wheel true Double.domino))))
    Double.domino = true /\
  Double.samePolygonb
    (Double.wheel false (Double.wheel false
       (Double.wheel false (Double.wheel false Double.domino))))
    Double.domino = true.
Proof. repeat split; vm_compute; reflexivity. Qed.

(* ================================================================== *)
(** * Further properties *)

(* ------------------------------------------------------------------ *)
(** ** Stacking order *)



Lemma setNewZValue_lowers (b : CBlock.t) (B : qreal) :
  1 <= B -> CBlock.zValue b <= B + 1 ->
  0 < CBlock.zValue (CBlock.setNewZValue (-1) b) /\
  CBlock.zValue (CBlock.setNewZValue (-1) b) <= B.
Proof.
  intros HB Hz. unfold CBlock.setNewZValue. cbn [Z.ltb Z.compare].
  destruct (Qltb 1 (CBlock.zValue b)) eqn:E;
    cbn [CBlock.zValue CBlock.setZValue].
  - apply Qltb_true in E. split; lra.
  - split; lra.
Qed.


Lemma setNewZValue_only_z nZ b :
  CBlock.setNewZValue nZ b =
  CBlock.setZValue (CBlock.zValue (CBlock.setNewZValue nZ b)) b.
Proof.
  unfold CBlock.setNewZValue.
  destruct (nZ <? 0)%Z; [destruct (Qltb 1 (CBlock.zValue b))|]; reflexivity.
Qed.

Lemma setZValue_setZValue a c b :
  CBlock.setZValue a (CBlock.setZValue c b) = CBlock.setZValue a b.
Proof. reflexivity. Qed.

(** The loop of [mousePressEvent] over the list: every entry ends positive
    and at most [B]; a block that is not an entry is left alone; nothing
    but z values changes. *)
Lemma lowering_spec l (B : qreal) : 1 <= B -> forall s q,
  CBlock.zValue (CBlock.blocks s q) <= B + 1 ->
  let s' :=
    fold_left (fun acc p => CBlock.update p (CBlock.setNewZValue (-1)) acc)
      l s in
  (In q l ->
   0 < CBlock.zValue (CBlock.blocks s' q) /\
   CBlock.zValue (CBlock.blocks s' q) <= B) /\
  (~ In q l -> CBlock.blocks s' q = CBlock.blocks s q) /\
  CBlock.blocks s' q =
    CBlock.setZValue (CBlock.zValue (CBlock.blocks s' q)) (CBlock.blocks s q) /\
  CBlock.emitted s' = CBlock.emitted s.
Proof.
  intros HB. induction l as [|p l IH]; intros s q Hz; cbn [fold_left].
  - cbv zeta. split; [intros []|]. split; [reflexivity|]. split; [|reflexivity].
    destruct (CBlock.blocks s q); reflexivity.
  - set (s1 := CBlock.update p (CBlock.setNewZValue (-1)) s).
    destruct (Nat.eq_dec q p) as [-> | Hqp].
    + assert (H1 : CBlock.blocks s1 p = CBlock.setNewZValue (-1) (CBlock.blocks s p))
        by apply blocks_update_same.
      destruct (setNewZValue_lowers (CBlock.blocks s p) B HB Hz) as [Hpos Hle].
      rewrite <- H1 in Hpos, Hle.
      destruct (IH s1 p ltac:(lra)) as (Hin & Hout & Hz' & He).
      cbv zeta in *. split; [|split; [|split]].
      * intros _. destruct (in_dec Nat.eq_dec p l) as [Hi | Hn].
        -- exact (Hin Hi).
        -- rewrite (Hout Hn). split; assumption.
      * intros Hn. exfalso. apply Hn. left. reflexivity.
      * rewrite Hz' at 1. rewrite H1.
        rewrite (setNewZValue_only_z (-1) (CBlock.blocks s p)).
        apply setZValue_setZValue.
      * rewrite He. reflexivity.
    + assert (H1 : CBlock.blocks s1 q = CBlock.blocks s q)
        by (apply blocks_update_other; exact Hqp).
      destruct (IH s1 q ltac:(rewrite H1; exact Hz)) as (Hin & Hout & Hz' & He).
      cbv zeta in *. rewrite H1 in *. split; [|split; [|split]].
      * intros [Hp | Hi]; [congruence | exact (Hin Hi)].
      * intros Hn. apply Hout. intros Hi. apply Hn. right. exact Hi.
      * exact Hz'.
      * rewrite He. reflexivity.
Qed.

(** The loop of [mousePressEvent] over the list changes nothing but z
    values, leaves a block that is not an entry alone and emits nothing,
    whatever the z values are. *)
Lemma lowering_frame l : forall s q,
  let s' :=
    fold_left (fun acc p => CBlock.update p (CBlock.setNewZValue (-1)) acc)
      l s in
  (~ In q l -> CBlock.blocks s' q = CBlock.blocks s q) /\
  CBlock.blocks s' q =
    CBlock.setZValue (CBlock.zValue (CBlock.blocks s' q)) (CBlock.blocks s q) /\
  CBlock.emitted s' = CBlock.emitted s.
Proof.
  induction l as [|p l IH]; intros s q; cbn [fold_left].
  - cbv zeta. split; [reflexivity|]. split; [|reflexivity].
    destruct (CBlock.blocks s q); reflexivity.
  - set (s1 := CBlock.update p (CBlock.setNewZValue (-1)) s).
    destruct (IH s1 q) as (Hout & Hz' & He). cbv zeta in *.
    split; [|split].
    + intros Hn. rewrite Hout by (intros Hi; apply Hn; right; exact Hi).
      apply blocks_update_other. intros ->. apply Hn. left. reflexivity.
    + rewrite Hz' at 1. destruct (Nat.eq_dec q p) as [-> | Hqp].
      * unfold s1. rewrite blocks_update_same.
        rewrite (setNewZValue_only_z (-1) (CBlock.blocks s p)).
        apply setZValue_setZValue.
      * unfold s1. rewrite (blocks_update_other p q) by exact Hqp.
        reflexivity.
    + rewrite He. reflexivity.
Qed.

(** X2.  A primary-button press on a block that is not a barrier brings it
    to the front: its z value becomes the length of the list plus 2, and
    each other entry of the list whose z value was at most that before ends
    with a positive z value strictly below it, whatever the z values of the
    remaining entries are.  Blocks that are not entries are left alone; no
    block moves or changes its outline; the pressed flag is set, the
    position is recorded and no signal is emitted. *)
Theorem press_brings_block_to_front this s :
  CBlock.m_bBarrier (CBlock.blocks s this) = false ->
  (Z.of_nat (length (CBlock.m_pListBlocks (CBlock.blocks s this))) + 2
     < 2 ^ 31)%Z ->
  CBlock.zValue (CBlock.blocks (CBlock.mousePressEvent this LeftButton s) this) =
    inject_Z
      (Z.of_nat (length (CBlock.m_pListBlocks (CBlock.blocks s this))) + 2) /\
  (forall q, In q (CBlock.m_pListBlocks (CBlock.blocks s this)) -> q <> this ->
     CBlock.zValue (CBlock.blocks s q) <=
     inject_Z
       (Z.of_nat (length (CBlock.m_pListBlocks (CBlock.blocks s this))) + 2) ->
     0 < CBlock.zValue
           (CBlock.blocks (CBlock.mousePressEvent this LeftButton s) q) /\
     CBlock.zValue (CBlock.blocks (CBlock.mousePressEvent this LeftButton s) q) <
     CBlock.zValue
       (CBlock.blocks (CBlock.mousePressEvent this LeftButton s) this)) /\
  (forall q, ~ In q (CBlock.m_pListBlocks (CBlock.blocks s this)) ->
     q <> this ->
     CBlock.blocks (CBlock.mousePressEvent this LeftButton s) q =
     CBlock.blocks s q) /\
  (forall q,
     CBlock.pos (CBlock.blocks (CBlock.mousePressEvent this LeftButton s) q) =
       CBlock.pos (CBlock.blocks s q) /\
     CBlock.m_PolyShape
       (CBlock.blocks (CBlock.mousePressEvent this LeftButton s) q) =
       CBlock.m_PolyShape (CBlock.blocks s q)) /\
  CBlock.m_bMousePressed
    (CBlock.blocks (CBlock.mousePressEvent this LeftButton s) this) = true /\
  CBlock.m_posBlockSelected
    (CBlock.blocks (CBlock.mousePressEvent this LeftButton s) this) =
    CBlock.pos (CBlock.blocks s this) /\
  CBlock.emitted (CBlock.mousePressEvent this LeftButton s) = CBlock.emitted s.
Proof.
  intros Hb Hn.
  set (l := CBlock.m_pListBlocks (CBlock.blocks s this)) in *.
  set (n := Z.of_nat (length l)) in *.
  assert (Hn0 : (0 <= n)%Z) by (unfold n; lia).
  set (B := inject_Z (n + 1)).
  assert (HB : 1 <= B).
  { unfold B. change 1 with (inject_Z 1). apply inject_Z_le. lia. }
  assert (HB1 : inject_Z (n + 2) == B + 1).
  { unfold B. replace (n + 2)%Z with (n + 1 + 1)%Z by lia.
    apply inject_Z_plus1. }
  unfold CBlock.mousePressEvent. cbv zeta. rewrite Hb.
  cbn [isLeft andb negb]. fold l. fold n.
  unfold int_add. rewrite (wrap_int_id (n + 2)) by (unfold in_int; lia).
  set (s1 := CBlock.update this (CBlock.set_bMousePressed true) s).
  set (s2 := fold_left _ l s1).
  assert (Hs1 : forall q,
    CBlock.zValue (CBlock.blocks s1 q) = CBlock.zValue (CBlock.blocks s q) /\
    CBlock.pos (CBlock.blocks s1 q) = CBlock.pos (CBlock.blocks s q) /\
    CBlock.m_PolyShape (CBlock.blocks s1 q) =
      CBlock.m_PolyShape (CBlock.blocks s q) /\
    (q <> this -> CBlock.blocks s1 q = CBlock.blocks s q)).
  { intros q. unfold s1. cbn [CBlock.update CBlock.blocks].
    destruct (Nat.eqb q this) eqn:E.
    - apply Nat.eqb_eq in E. subst q. repeat split. intros Hq. congruence.
    - repeat split. }
  assert (Hframe : forall q,
    (~ In q l -> CBlock.blocks s2 q = CBlock.blocks s1 q) /\
    CBlock.blocks s2 q =
      CBlock.setZValue (CBlock.zValue (CBlock.blocks s2 q)) (CBlock.blocks s1 q) /\
    CBlock.emitted s2 = CBlock.emitted s1).
  { intros q. exact (lowering_frame l s1 q). }
  split; [|split; [|split; [|split; [|split; [|split]]]]].
  - rewrite !blocks_update_same. reflexivity.
  - intros q Hi Hq Hz.
    rewrite !blocks_update_same.
    rewrite !(blocks_update_other this q) by exact Hq.
    assert (Hz1 : CBlock.zValue (CBlock.blocks s1 q) <= B + 1).
    { destruct (Hs1 q) as [E _]. rewrite E. lra. }
    destruct (lowering_spec l B HB s1 q Hz1) as [Hin _].
    destruct (Hin Hi) as [H0 HleB]. fold s2 in H0, HleB.
    cbn [CBlock.zValue CBlock.set_posBlockSelected CBlock.setZValue].
    unfold qreal_of_int. split; [exact H0 | lra].
  - intros q Hni Hq.
    rewrite !(blocks_update_other this q) by exact Hq.
    destruct (Hframe q) as (Hout & _).
    rewrite (Hout Hni). destruct (Hs1 q) as (_ & _ & _ & E). apply E. exact Hq.
  - intros q. destruct (Hframe q) as (_ & Hz' & _).
    destruct (Hs1 q) as (_ & Ep & Es & _).
    destruct (Nat.eq_dec q this) as [-> | Hq].
    + rewrite !blocks_update_same. rewrite Hz'.
      cbn [CBlock.pos CBlock.m_PolyShape CBlock.set_posBlockSelected
           CBlock.setZValue].
      split; assumption.
    + rewrite !(blocks_update_other this q) by exact Hq. rewrite Hz'.
      cbn [CBlock.pos CBlock.m_PolyShape CBlock.setZValue].
      split; assumption.
  - rewrite !blocks_update_same.
    destruct (Hframe this) as (_ & Hz' & _). rewrite Hz'.
    unfold s1. rewrite blocks_update_same. reflexivity.
  - rewrite !blocks_update_same.
    destruct (Hframe this) as (_ & Hz' & _). rewrite Hz'.
    destruct (Hs1 this) as (_ & Ep & _).
    cbn [CBlock.m_posBlockSelected CBlock.set_posBlockSelected CBlock.pos
         CBlock.setZValue].
    exact Ep.
  - cbn [CBlock.update CBlock.emitted].
    destruct (Hframe this) as (_ & _ & He). rewrite He.
    reflexivity.
Qed.

(* ------------------------------------------------------------------ *)
(** ** A whole drag *)

Lemma snapToGrid_same_grid b b' p :
  CBlock.m_nGrid b = CBlock.m_nGrid b' ->
  CBlock.snapToGrid b p = CBlock.snapToGrid b' p.
Proof. intros E. unfold CBlock.snapToGrid. rewrite E. reflexivity. Qed.

Lemma snapToGrid_twice b p :
  (0 < CBlock.m_nGrid b <= 65535)%Z ->
  Qabs (QPointF.x p) <= 2147418112 -> Qabs (QPointF.y p) <= 2147418112 ->
  CBlock.snapToGrid b (CBlock.snapToGrid b p) = CBlock.snapToGrid b p.
Proof.
  intros Hg Hx Hy. unfold CBlock.snapToGrid, qreal_of_int.
  cbn [QPointF.x QPointF.y].
  destruct (snap_coordinate (CBlock.m_nGrid b) (QPointF.x p) Hg Hx) as [Hx1 Hx2].
  destruct (snap_coordinate (CBlock.m_nGrid b) (QPointF.y p) Hg Hy) as [Hy1 Hy2].
  cbv zeta in Hx1, Hx2, Hy1, Hy2.
  rewrite Hx1, Hy1, Hx2, Hy2. reflexivity.
Qed.

(** The block a primary-button press leaves behind, and what it does to the
    others. *)
Lemma press_left_blocks this s :
  CBlock.m_bBarrier (CBlock.blocks s this) = false ->
  (exists z,
     CBlock.blocks (CBlock.mousePressEvent this LeftButton s) this =
     CBlock.set_posBlockSelected (CBlock.pos (CBlock.blocks s this))
       (CBlock.setZValue z
          (CBlock.set_bMousePressed true (CBlock.blocks s this)))) /\
  (forall q, q <> this -> exists z,
     CBlock.blocks (CBlock.mousePressEvent this LeftButton s) q =
     CBlock.setZValue z (CBlock.blocks s q)) /\
  CBlock.emitted (CBlock.mousePressEvent this LeftButton s) = CBlock.emitted s.
Proof.
  intros Hb. unfold CBlock.mousePressEvent. cbv zeta. rewrite Hb.
  cbn [isLeft andb negb].
  set (l := CBlock.m_pListBlocks (CBlock.blocks s this)).
  set (s1 := CBlock.update this (CBlock.set_bMousePressed true) s).
  assert (Hfold : forall l' s0 q,
    (exists z,
       CBlock.blocks
         (fold_left (fun acc p => CBlock.update p (CBlock.setNewZValue (-1)) acc)
            l' s0) q = CBlock.setZValue z (CBlock.blocks s0 q)) /\
    CBlock.emitted
      (fold_left (fun acc p => CBlock.update p (CBlock.setNewZValue (-1)) acc)
         l' s0) = CBlock.emitted s0).
  { induction l' as [|p l' IH]; intros s0 q; cbn [fold_left].
    - split; [|reflexivity]. exists (CBlock.zValue (CBlock.blocks s0 q)).
      destruct (CBlock.blocks s0 q); reflexivity.
    - destruct (IH (CBlock.update p (CBlock.setNewZValue (-1)) s0) q)
        as [[z Hz] He].
      split; [|rewrite He; reflexivity].
      exists z. rewrite Hz. cbn [CBlock.update CBlock.blocks].
      destruct (Nat.eqb q p) eqn:E; [|reflexivity].
      apply Nat.eqb_eq in E. subst q.
      rewrite (setNewZValue_only_z (-1) (CBlock.blocks s0 p)). reflexivity. }
  split; [|split].
  - rewrite !blocks_update_same.
    destruct (Hfold l s1 this) as [[z Hz] _]. rewrite Hz.
    unfold s1. rewrite blocks_update_same.
    eexists. reflexivity.
  - intros q Hq. rewrite !(blocks_update_other this q) by exact Hq.
    destruct (Hfold l s1 q) as [[z Hz] _]. exists z. rewrite Hz.
    unfold s1. rewrite blocks_update_other by exact Hq. reflexivity.
  - cbn [CBlock.update CBlock.emitted].
    destruct (Hfold l s1 this) as [_ He]. rewrite He. reflexivity.
Qed.

Section Drag.
Context `{QtServices CBlock.t}.

(** The two ways a primary-button release can end. *)
Lemma release_outcome this s :
  CBlock.m_bBarrier (CBlock.blocks s this) = false ->
  exists collision : bool,
    CBlock.emitted (CBlock.mouseReleaseEvent this LeftButton s) =
      CBlock.emitted s ++
        incrementMoves :: (if collision then [] else [checkPuzzleSolved]) /\
    CBlock.blocks (CBlock.mouseReleaseEvent this LeftButton s) this =
      CBlock.setPos
        (if collision
         then CBlock.snapToGrid (CBlock.blocks s this)
                (CBlock.m_posBlockSelected (CBlock.blocks s this))
         else CBlock.snapToGrid (CBlock.blocks s this)
                (CBlock.pos (CBlock.blocks s this)))
        (CBlock.set_bMousePressed false (CBlock.blocks s this)) /\
    (forall q, q <> this ->
       CBlock.blocks (CBlock.mouseReleaseEvent this LeftButton s) q =
       CBlock.blocks s q).
Proof.
  intros Hb. unfold CBlock.mouseReleaseEvent. cbv zeta. rewrite Hb.
  cbn [isLeft andb negb].
  match goal with
  | |- context [if ?c then _ else _] => exists c; destruct c
  end;
  cbn [CBlock.blocks CBlock.emit CBlock.update CBlock.emitted];
  rewrite !Nat.eqb_refl.
  - split; [reflexivity|]. split; [reflexivity|].
    intros q Hq. apply Nat.eqb_neq in Hq. rewrite Hq. reflexivity.
  - split; [rewrite <- app_assoc; reflexivity|]. split; [reflexivity|].
    intros q Hq. apply Nat.eqb_neq in Hq. rewrite Hq. reflexivity.
Qed.

(** X3.  A whole drag of a block that is not a barrier -- primary-button
    press, any motion of the held block, primary-button release -- of a
    block that sat on the grid ends in one of two ways: the block is back
    exactly where it was pressed and [incrementMoves] alone was emitted, or
    it sits at the snapped drop position and [incrementMoves] and
    [checkPuzzleSolved] were emitted in that order.  Either way the block
    sits on the grid again, is no longer held and has kept its outline, and
    no other block has moved or changed its outline. *)
Theorem drag_ends_at_start_or_snapped_drop this (drop : QPointF.t) s :
  CBlock.m_bBarrier (CBlock.blocks s this) = false ->
  (0 < CBlock.m_nGrid (CBlock.blocks s this) <= 65535)%Z ->
  CBlock.snapToGrid (CBlock.blocks s this) (CBlock.pos (CBlock.blocks s this)) =
    CBlock.pos (CBlock.blocks s this) ->
  Qabs (QPointF.x drop) <= 2147418112 ->
  Qabs (QPointF.y drop) <= 2147418112 ->
  let s' :=
    CBlock.mouseReleaseEvent this LeftButton
      (dragTo this drop (CBlock.mousePressEvent this LeftButton s)) in
  ((CBlock.pos (CBlock.blocks s' this) = CBlock.pos (CBlock.blocks s this) /\
    CBlock.emitted s' = CBlock.emitted s ++ [incrementMoves]) \/
   (CBlock.pos (CBlock.blocks s' this) =
      CBlock.snapToGrid (CBlock.blocks s this) drop /\
    CBlock.emitted s' =
      CBlock.emitted s ++ [incrementMoves; checkPuzzleSolved])) /\
  CBlock.snapToGrid (CBlock.blocks s' this) (CBlock.pos (CBlock.blocks s' this)) =
    CBlock.pos (CBlock.blocks s' this) /\
  CBlock.m_bMousePressed (CBlock.blocks s' this) = false /\
  (forall q,
     CBlock.m_PolyShape (CBlock.blocks s' q) =
       CBlock.m_PolyShape (CBlock.blocks s q) /\
     (q <> this ->
      CBlock.pos (CBlock.blocks s' q) = CBlock.pos (CBlock.blocks s q))).
Proof.
  intros Hb Hg Hstart Hx Hy s'.
  destruct (press_left_blocks this s Hb) as ([z Hthis] & Hothers & Hemit).
  set (s1 := CBlock.mousePressEvent this LeftButton s) in *.
  set (s2 := dragTo this drop s1) in *.
  assert (H2this : CBlock.blocks s2 this =
            CBlock.setPos drop (CBlock.blocks s1 this))
    by apply blocks_update_same.
  assert (H2other : forall q, q <> this -> CBlock.blocks s2 q = CBlock.blocks s1 q)
    by (intros q Hq; apply blocks_update_other; exact Hq).
  assert (Hb2 : CBlock.m_bBarrier (CBlock.blocks s2 this) = false)
    by (rewrite H2this, Hthis; exact Hb).
  destruct (release_outcome this s2 Hb2) as (collision & He & Hb' & Ho').
  fold s' in He, Hb', Ho'.
  assert (Hgrid : forall p,
            CBlock.snapToGrid (CBlock.blocks s2 this) p =
            CBlock.snapToGrid (CBlock.blocks s this) p).
  { intros p. apply snapToGrid_same_grid. rewrite H2this, Hthis. reflexivity. }
  assert (Hgrid' : forall p,
            CBlock.snapToGrid (CBlock.blocks s' this) p =
            CBlock.snapToGrid (CBlock.blocks s this) p).
  { intros p. apply snapToGrid_same_grid. rewrite Hb', H2this, Hthis.
    reflexivity. }
  assert (Hpos : CBlock.pos (CBlock.blocks s' this) =
            if collision then CBlock.pos (CBlock.blocks s this)
            else CBlock.snapToGrid (CBlock.blocks s this) drop).
  { rewrite Hb'. cbn [CBlock.pos CBlock.setPos]. rewrite !Hgrid.
    rewrite H2this, Hthis.
    cbn [CBlock.pos CBlock.setPos CBlock.m_posBlockSelected
         CBlock.set_posBlockSelected].
    destruct collision; [exact Hstart | reflexivity]. }
  assert (Hemit2 : CBlock.emitted s2 = CBlock.emitted s) by exact Hemit.
  split; [|split; [|split]].
  - rewrite Hpos, He, Hemit2. destruct collision; [left | right]; split; reflexivity.
  - rewrite Hgrid', Hpos. destruct collision.
    + exact Hstart.
    + apply snapToGrid_twice; assumption.
  - rewrite Hb'. reflexivity.
  - intros q. destruct (Nat.eq_dec q this) as [-> | Hq].
    + split; [|intros Hn; congruence].
      rewrite Hb', H2this, Hthis. reflexivity.
    + rewrite (Ho' q Hq), (H2other q Hq).
      destruct (Hothers q Hq) as [z' Hz']. fold s1 in Hz'. rewrite Hz'.
      split; [reflexivity | intros _; reflexivity].
Qed.
End Drag.

(* ------------------------------------------------------------------ *)
(** ** Grid cells *)

(** Snapping moves a coordinate onto a multiple of the grid size that is at
    most half a grid step away. *)
Lemma snap_coordinate_near (g : Z) (x : Q) :
  (0 < g <= 65535)%Z -> Qabs x <= 2147418112 ->
  exists k : Z,
    int_mul (qRound (x / inject_Z g)) g = (k * g)%Z /\
    Qabs (inject_Z (k * g) - x) <= inject_Z g / 2.
Proof.
  intros Hg Hx. exists (qRound (x / inject_Z g)).
  destruct (snap_coordinate g x Hg Hx) as [E _]. cbv zeta in E.
  split; [exact E|].
  apply Qabs_Qle_condition in Hx. destruct Hx as [Hx1 Hx2].
  assert (Hg1 : 1 <= inject_Z g)
    by (change 1 with (inject_Z 1); apply inject_Z_le; lia).
  assert (Hgn : ~ inject_Z g == 0) by lra.
  set (g' := inject_Z g) in *.
  assert (Hd1 : - inject_Z 2147418112 <= x / g').
  { change (inject_Z 2147418112) with 2147418112.
    apply Qle_shift_div_l; lra. }
  assert (Hd2 : x / g' <= inject_Z 2147418112).
  { change (inject_Z 2147418112) with 2147418112.
    apply Qle_shift_div_r; lra. }
  destruct (qRound_near (x / g') 2147418112 ltac:(lia) Hd1 Hd2)
    as [[Hn1 Hn2] _].
  set (k := qRound (x / g')) in *.
  assert (Hdg : x / g' * g' == x) by (field; exact Hgn).
  assert (Hm1 : (x / g' - (1 # 2)) * g' <= inject_Z k * g')
    by (apply Qmult_le_compat_r; lra).
  assert (Hm2 : inject_Z k * g' <= (x / g' + (1 # 2)) * g')
    by (apply Qmult_le_compat_r; lra).
  assert (Hkg : inject_Z (k * g) == inject_Z k * g')
    by (unfold g'; rewrite inject_Z_mult; reflexivity).
  assert (He1 : (x / g' - (1 # 2)) * g' == x - (1 # 2) * g')
    by (rewrite <- Hdg at 2; ring).
  assert (He2 : (x / g' + (1 # 2)) * g' == x + (1 # 2) * g')
    by (rewrite <- Hdg at 2; ring).
  assert (Hhalf : g' / 2 == (1 # 2) * g') by (field).
  apply Qabs_Qle_condition. split; lra.
Qed.

(** A coordinate that is a multiple of the grid size is a fixed point. *)
Lemma snap_multiple (g k : Z) (x : Q) :
  (0 < g)%Z -> (- (2 ^ 31 - 2) <= k * g <= 2 ^ 31 - 2)%Z ->
  x == inject_Z (k * g) ->
  int_mul (qRound (x / inject_Z g)) g = (k * g)%Z.
Proof.
  intros Hg Hr Hx.
  assert (Hgn : ~ inject_Z g == 0).
  { intros E. assert (inject_Z 0 < inject_Z g) by (apply inject_Z_lt; lia).
    change (inject_Z 0) with 0 in H. lra. }
  assert (Hk : (- (2 ^ 31 - 2) <= k <= 2 ^ 31 - 2)%Z) by nia.
  rewrite (qRound_comp (x / inject_Z g) (inject_Z k)).
  - rewrite qRound_inject_Z by exact Hk.
    unfold int_mul. apply wrap_int_id. unfold in_int. lia.
  - rewrite Hx, inject_Z_mult. field. exact Hgn.
Qed.

(** X6.  Within the range of [int], [snapToGrid] puts a point on the grid --
    both coordinates become integer multiples of the grid size -- and a
    coordinate that is a whole number of pixels moves by at most half a
    grid step. *)
Theorem snapToGrid_lands_on_nearest_grid_point (b : CBlock.t) (p : QPointF.t) :
  (0 < CBlock.m_nGrid b <= 65535)%Z ->
  Qabs (QPointF.x p) <= 2147418112 ->
  Qabs (QPointF.y p) <= 2147418112 ->
  exists i j : Z,
    CBlock.snapToGrid b p = cell (CBlock.m_nGrid b) i j /\
    (isWhole (QPointF.x p) ->
     Qabs (QPointF.x (CBlock.snapToGrid b p) - QPointF.x p) <=
       inject_Z (CBlock.m_nGrid b) / 2) /\
    (isWhole (QPointF.y p) ->
     Qabs (QPointF.y (CBlock.snapToGrid b p) - QPointF.y p) <=
       inject_Z (CBlock.m_nGrid b) / 2).
Proof.
  intros Hg Hx Hy.
  destruct (snap_coordinate_near _ _ Hg Hx) as (i & Ei & Hi).
  destruct (snap_coordinate_near _ _ Hg Hy) as (j & Ej & Hj).
  exists i, j. unfold CBlock.snapToGrid, cell, qreal_of_int.
  cbn [QPointF.x QPointF.y]. rewrite Ei, Ej.
  split; [reflexivity|]. split; intros _; assumption.
Qed.

(** X5.  A block constructed at a whole grid cell sits on the grid: its
    position is that cell, and snapping it changes nothing. *)
Theorem constructed_block_sits_on_grid
    (nID : Z) (shape : QPolygonF.t) (nGrid : Z) (pListBlocks : list CBlock.ptr)
    (i j : Z) (bBarrier : bool) :
  (0 < nGrid)%Z ->
  (- (2 ^ 31 - 2) <= i * nGrid <= 2 ^ 31 - 2)%Z ->
  (- (2 ^ 31 - 2) <= j * nGrid <= 2 ^ 31 - 2)%Z ->
  let b :=
    fst (CBlock.create nID shape nGrid pListBlocks
           (QPointF.mk (inject_Z i) (inject_Z j)) bBarrier) in
  CBlock.pos b = cell nGrid i j /\
  CBlock.snapToGrid b (CBlock.pos b) = CBlock.pos b.
Proof.
  intros Hg Hi Hj b.
  assert (Hpos : CBlock.pos b = cell nGrid i j).
  { unfold b, CBlock.create. cbn [fst].
    destruct bBarrier; reflexivity. }
  assert (Hgrid : CBlock.m_nGrid b = nGrid).
  { unfold b, CBlock.create. cbn [fst]. destruct bBarrier; reflexivity. }
  split; [exact Hpos|].
  rewrite Hpos. unfold CBlock.snapToGrid, cell, qreal_of_int.
  cbn [QPointF.x QPointF.y]. rewrite Hgrid.
  rewrite (snap_multiple nGrid i) by (try assumption; reflexivity).
  rewrite (snap_multiple nGrid j) by (try assumption; reflexivity).
  reflexivity.
Qed.

(** X4.  [rescaleBlock] keeps a block on its grid cell: a block at cell
    (i, j) of the old grid ends at cell (i, j) of the new grid, with the new
    grid size as its grid and its scale and with its outline unchanged; so
    rescaling back returns it to the position it had. *)
Theorem rescaleBlock_keeps_grid_cell (nNewScale i j : Z) (b : CBlock.t) :
  (0 < CBlock.m_nGrid b)%Z -> (0 < nNewScale)%Z ->
  CBlock.pos b = cell (CBlock.m_nGrid b) i j ->
  (- (2 ^ 31 - 2) <= i * CBlock.m_nGrid b <= 2 ^ 31 - 2)%Z ->
  (- (2 ^ 31 - 2) <= j * CBlock.m_nGrid b <= 2 ^ 31 - 2)%Z ->
  (- (2 ^ 31 - 2) <= i * nNewScale <= 2 ^ 31 - 2)%Z ->
  (- (2 ^ 31 - 2) <= j * nNewScale <= 2 ^ 31 - 2)%Z ->
  CBlock.pos (CBlock.rescaleBlock nNewScale b) = cell nNewScale i j /\
  CBlock.m_nGrid (CBlock.rescaleBlock nNewScale b) = nNewScale /\
  CBlock.scale (CBlock.rescaleBlock nNewScale b) = inject_Z nNewScale /\
  CBlock.m_PolyShape (CBlock.rescaleBlock nNewScale b) = CBlock.m_PolyShape b /\
  CBlock.pos
    (CBlock.rescaleBlock (CBlock.m_nGrid b) (CBlock.rescaleBlock nNewScale b)) =
    CBlock.pos b.
Proof.
  intros Hg Hg' Hpos Hi Hj Hi' Hj'.
  assert (Hcell : forall g g' (c : CBlock.t),
    (0 < g)%Z -> (0 < g')%Z -> CBlock.m_nGrid c = g ->
    CBlock.pos c = cell g i j ->
    (- (2 ^ 31 - 2) <= i * g' <= 2 ^ 31 - 2)%Z ->
    (- (2 ^ 31 - 2) <= j * g' <= 2 ^ 31 - 2)%Z ->
    CBlock.pos (CBlock.rescaleBlock g' c) = cell g' i j).
  { intros g g' c H0 H0' Eg Ep Hri Hrj.
    assert (Hgn : ~ inject_Z g == 0).
    { intros E. assert (inject_Z 0 < inject_Z g) by (apply inject_Z_lt; lia).
      change (inject_Z 0) with 0 in H. lra. }
    unfold CBlock.rescaleBlock. cbv zeta.
    cbn [CBlock.pos CBlock.setPos].
    unfold CBlock.snapToGrid, cell, qreal_of_int, QPointF.mul, QPointF.div.
    cbn [QPointF.x QPointF.y CBlock.m_nGrid CBlock.set_nGrid CBlock.setScale].
    rewrite Ep, Eg. unfold cell. cbn [QPointF.x QPointF.y].
    rewrite (snap_multiple g' i); [|exact H0'|exact Hri|].
    rewrite (snap_multiple g' j); [|exact H0'|exact Hrj|].
    - reflexivity.
    - rewrite !inject_Z_mult. field. exact Hgn.
    - rewrite !inject_Z_mult. field. exact Hgn. }
  assert (Hp1 : CBlock.pos (CBlock.rescaleBlock nNewScale b) = cell nNewScale i j)
    by (apply (Hcell (CBlock.m_nGrid b)); auto).
  split; [exact Hp1|]. split; [reflexivity|]. split; [reflexivity|].
  split; [reflexivity|].
  rewrite Hpos. apply (Hcell nNewScale); auto.
Qed.

(* ------------------------------------------------------------------ *)
(** ** Where the bounding rectangle goes *)

Lemma boundingRect_Bounds (ax : Axis) (v : QPointF.t) (s : QPolygonF.t) :
  Bounds (map (coord ax) (v :: s))
    (origin ax (QPolygonF.boundingRect (v :: s)))
    (origin ax (QPolygonF.boundingRect (v :: s)) +
     dim ax (QPolygonF.boundingRect (v :: s))).
Proof.
  unfold QPolygonF.boundingRect. rewrite scan_range.
  pose proof (range_Bounds (QPointF.x v) (map QPointF.x s)) as Bx.
  pose proof (range_Bounds (QPointF.y v) (map QPointF.y s)) as By.
  destruct ax;
    cbn [map coord dim origin QRectF.x QRectF.y QRectF.width QRectF.height].
  - destruct Bx as (F & EL & EH). repeat split; try assumption.
    + eapply Forall_impl; [|exact F]. cbv beta. intros a Ha. lra.
    + eapply Exists_impl; [|exact EH]. cbv beta. intros a Ha. lra.
  - destruct By as (F & EL & EH). repeat split; try assumption.
    + eapply Forall_impl; [|exact F]. cbv beta. intros a Ha. lra.
    + eapply Exists_impl; [|exact EH]. cbv beta. intros a Ha. lra.
Qed.

(** Where the bounding rectangle of a non-empty polygon starts along [ax']
    after a map that shifts or mirrors the coordinate [ax]. *)
Lemma origin_image (ax ax' : Axis) (G : QPointF.t -> QPointF.t)
    (v : QPointF.t) (s : QPolygonF.t) (c : qreal) :
  ((forall p, coord ax' (G p) == coord ax p + c) ->
   origin ax' (QPolygonF.boundingRect (map G (v :: s))) ==
   origin ax (QPolygonF.boundingRect (v :: s)) + c) /\
  ((forall p, coord ax' (G p) == c - coord ax p) ->
   origin ax' (QPolygonF.boundingRect (map G (v :: s))) ==
   c - (origin ax (QPolygonF.boundingRect (v :: s)) +
        dim ax (QPolygonF.boundingRect (v :: s)))).
Proof.
  pose proof (boundingRect_Bounds ax v s) as B.
  pose proof (boundingRect_Bounds ax' (G v) (map G s)) as B'.
  change (G v :: map G s) with (map G (v :: s)) in B'.
  rewrite map_map in B'.
  split; intros HG.
  - pose proof (Bounds_shift (coord ax) (fun p => coord ax' (G p)) c (v :: s)
                  _ _ HG B) as B2.
    destruct (Bounds_unique _ _ _ _ _ B' B2) as [E _]. exact E.
  - pose proof (Bounds_flip (coord ax) (fun p => coord ax' (G p)) c (v :: s)
                  _ _ HG B) as B2.
    destruct (Bounds_unique _ _ _ _ _ B' B2) as [E _]. exact E.
Qed.

Lemma flipShape_as_map (p : QPolygonF.t) :
  exists G, flipShape p = map G p /\
    forall v, QPointF.x (G v) ==
                QRectF.width (QPolygonF.boundingRect p) - QPointF.x v /\
              QPointF.y (G v) == QPointF.y v + 0.
Proof.
  unfold flipShape, QPolygonF.translate, QTransform.map.
  set (s := map (QTransform.mapPoint mirror) p).
  assert (HW : QRectF.width (QPolygonF.boundingRect s) ==
               QRectF.width (QPolygonF.boundingRect p)).
  { apply (dim_image AxisX AxisX _ p 0). right. intros q. cbn. ring. }
  unfold s at 2. rewrite map_map. eexists. split; [reflexivity|].
  intros v. cbn. split; lra.
Qed.

(** X7.  Flipping keeps the top edge and the height of the bounding
    rectangle.  For an outline with its vertices on whole cells it keeps
    the width as well and the left edge changes sign, so that such an
    outline whose bounding rectangle starts at x = 0 keeps its bounding
    rectangle. *)
Theorem flip_keeps_bounding_rectangle this s :
  CBlock.m_bBarrier (CBlock.blocks s this) = false ->
  (QRectF.y
     (CBlock.boundingRect
        (CBlock.blocks (CBlock.mousePressEvent this RightButton s) this)) ==
   QRectF.y (CBlock.boundingRect (CBlock.blocks s this)) /\
   QRectF.height
     (CBlock.boundingRect
        (CBlock.blocks (CBlock.mousePressEvent this RightButton s) this)) ==
   QRectF.height (CBlock.boundingRect (CBlock.blocks s this))) /\
  (onCells (CBlock.m_PolyShape (CBlock.blocks s this)) ->
   sameRect
     (CBlock.boundingRect
        (CBlock.blocks (CBlock.mousePressEvent this RightButton s) this))
     (QRectF.mk (- QRectF.x (CBlock.boundingRect (CBlock.blocks s this)))
                (QRectF.y (CBlock.boundingRect (CBlock.blocks s this)))
                (QRectF.width (CBlock.boundingRect (CBlock.blocks s this)))
                (QRectF.height (CBlock.boundingRect (CBlock.blocks s this)))) /\
   (QRectF.x (CBlock.boundingRect (CBlock.blocks s this)) == 0 ->
    sameRect
      (CBlock.boundingRect
         (CBlock.blocks (CBlock.mousePressEvent this RightButton s) this))
      (CBlock.boundingRect (CBlock.blocks s this)))).
Proof.
  intros Hb. destruct (press_right_shape this s Hb) as [E _].
  unfold CBlock.boundingRect. rewrite E. clear E.
  set (p := CBlock.m_PolyShape (CBlock.blocks s this)).
  assert (Hmain : sameRect (QPolygonF.boundingRect (flipShape p))
            (QRectF.mk (- QRectF.x (QPolygonF.boundingRect p))
               (QRectF.y (QPolygonF.boundingRect p))
               (QRectF.width (QPolygonF.boundingRect p))
               (QRectF.height (QPolygonF.boundingRect p)))).
  { destruct (flipShape_as_map p) as (G & -> & HG).
    assert (Hw : QRectF.width (QPolygonF.boundingRect (map G p)) ==
                 QRectF.width (QPolygonF.boundingRect p)).
    { apply (dim_image AxisX AxisX G p
               (QRectF.width (QPolygonF.boundingRect p))).
      right. intros v. exact (proj1 (HG v)). }
    assert (Hh : QRectF.height (QPolygonF.boundingRect (map G p)) ==
                 QRectF.height (QPolygonF.boundingRect p)).
    { apply (dim_image AxisY AxisY G p 0).
      left. intros v. exact (proj2 (HG v)). }
    destruct p as [|v p'] eqn:Ep.
    - cbn. repeat split; reflexivity.
    - destruct (origin_image AxisX AxisX G v p'
                  (QRectF.width (QPolygonF.boundingRect (v :: p'))))
        as [_ Hx].
      destruct (origin_image AxisY AxisY G v p' 0) as [Hy _].
      specialize (Hx (fun q => proj1 (HG q))).
      specialize (Hy (fun q => proj2 (HG q))).
      cbn [origin dim] in Hx, Hy.
      unfold sameRect. cbn [QRectF.x QRectF.y QRectF.width QRectF.height].
      repeat split; try assumption; lra. }
  destruct Hmain as (Hx & Hy & Hw & Hh).
  cbn [QRectF.x QRectF.y QRectF.width QRectF.height] in *.
  split; [split; assumption|].
  intros _. split.
  - unfold sameRect. cbn [QRectF.x QRectF.y QRectF.width QRectF.height].
    repeat split; assumption.
  - intros H0. unfold sameRect. repeat split; try assumption. lra.
Qed.

Lemma truncated_whole d :
  isWhole d -> 0 <= d -> d < 2147483648 -> truncated d == d.
Proof.
  intros [k Hk] H0 H1. rewrite (truncated_in_range d H0 H1).
  rewrite (Qtruncate_comp d (inject_Z k) Hk), Qtruncate_Z. symmetry. exact Hk.
Qed.

(** On whole cells the round trip of a bounding dimension through
    [qint32] changes nothing. *)
Lemma truncated_on_cells ax p :
  onCells p ->
  truncated (dim ax (QPolygonF.boundingRect p)) ==
  dim ax (QPolygonF.boundingRect p).
Proof.
  intros Hp. apply truncated_whole.
  - apply dim_whole, onCells_onWhole, Hp.
  - apply dim_nonneg.
  - apply dim_in_range, Hp.
Qed.

Section Anchoring.
Context `{QtServices CBlock.t}.

(** The bounding rectangle after a wheel turn, from the one before. *)
Lemma wheelShape_boundingRect delta (p : QPolygonF.t) :
  sameRect (QPolygonF.boundingRect (wheelShape delta p))
    (if (delta <? 0)%Z then
       QRectF.mk
         (truncated (QRectF.height (QPolygonF.boundingRect p)) -
          (QRectF.y (QPolygonF.boundingRect p) +
           QRectF.height (QPolygonF.boundingRect p)))
         (QRectF.x (QPolygonF.boundingRect p))
         (QRectF.height (QPolygonF.boundingRect p))
         (QRectF.width (QPolygonF.boundingRect p))
     else
       QRectF.mk
         (QRectF.y (QPolygonF.boundingRect p))
         (truncated (QRectF.width (QPolygonF.boundingRect p)) -
          (QRectF.x (QPolygonF.boundingRect p) +
           QRectF.width (QPolygonF.boundingRect p)))
         (QRectF.height (QPolygonF.boundingRect p))
         (QRectF.width (QPolygonF.boundingRect p))).
Proof.
  destruct (delta <? 0)%Z eqn:Ed.
  - apply Z.ltb_lt in Ed.
    destruct (wheelShape_neg delta p p _ Ed (Tracks_start p)) as (G & E & HG).
    rewrite E. clear E. cbv beta in HG.
    set (t := truncated (QRectF.height (QPolygonF.boundingRect p))) in *.
    assert (Hx : forall v, coord AxisX (G v) == t - coord AxisY v)
      by (intros v; destruct (HG v) as [Hx _]; cbn in *; lra).
    assert (Hy : forall v, coord AxisY (G v) == coord AxisX v + 0)
      by (intros v; destruct (HG v) as [_ Hy]; cbn in *; lra).
    pose proof (dim_image AxisY AxisX G p t (or_intror Hx)) as Hw.
    pose proof (dim_image AxisX AxisY G p 0 (or_introl Hy)) as Hh.
    cbn [dim] in Hw, Hh.
    destruct p as [|v p'].
    + unfold t. cbn. repeat split; reflexivity.
    + destruct (origin_image AxisY AxisX G v p' t) as [_ Ox].
      destruct (origin_image AxisX AxisY G v p' 0) as [Oy _].
      specialize (Ox Hx). specialize (Oy Hy). cbn [origin dim] in Ox, Oy.
      unfold sameRect. cbn [QRectF.x QRectF.y QRectF.width QRectF.height].
      repeat split; try assumption; lra.
  - apply Z.ltb_ge in Ed.
    destruct (wheelShape_nonneg delta p p _ Ed (Tracks_start p)) as (G & E & HG).
    rewrite E. clear E. cbv beta in HG.
    set (t := truncated (QRectF.width (QPolygonF.boundingRect p))) in *.
    assert (Hx : forall v, coord AxisX (G v) == coord AxisY v + 0)
      by (intros v; destruct (HG v) as [Hx _]; cbn in *; lra).
    assert (Hy : forall v, coord AxisY (G v) == t - coord AxisX v)
      by (intros v; destruct (HG v) as [_ Hy]; cbn in *; lra).
    pose proof (dim_image AxisY AxisX G p 0 (or_introl Hx)) as Hw.
    pose proof (dim_image AxisX AxisY G p t (or_intror Hy)) as Hh.
    cbn [dim] in Hw, Hh.
    destruct p as [|v p'].
    + unfold t. cbn. repeat split; reflexivity.
    + destruct (origin_image AxisY AxisX G v p' 0) as [Ox _].
      destruct (origin_image AxisX AxisY G v p' t) as [_ Oy].
      specialize (Ox Hx). specialize (Oy Hy). cbn [origin dim] in Ox, Oy.
      unfold sameRect. cbn [QRectF.x QRectF.y QRectF.width QRectF.height].
      repeat split; try assumption; lra.
Qed.

(** X8.  A vertical wheel gesture keeps an outline anchored: when the
    bounding rectangle starts at the origin and the dimension the handler
    shifts by (the height for a negative delta, the width otherwise) is a
    whole number below 2^31, the bounding rectangle after the gesture starts
    at the origin again, with width and height exchanged. *)
Theorem wheel_keeps_outline_anchored this delta s :
  CBlock.m_bBarrier (CBlock.blocks s this) = false ->
  QRectF.x (CBlock.boundingRect (CBlock.blocks s this)) == 0 ->
  QRectF.y (CBlock.boundingRect (CBlock.blocks s this)) == 0 ->
  isWhole
    (if (delta <? 0)%Z
     then QRectF.height (CBlock.boundingRect (CBlock.blocks s this))
     else QRectF.width (CBlock.boundingRect (CBlock.blocks s this))) ->
  (if (delta <? 0)%Z
   then QRectF.height (CBlock.boundingRect (CBlock.blocks s this))
   else QRectF.width (CBlock.boundingRect (CBlock.blocks s this)))
    < 2147483648 ->
  sameRect
    (CBlock.boundingRect
       (CBlock.blocks (CBlock.wheelEvent this Vertical delta s) this))
    (QRectF.mk 0 0
       (QRectF.height (CBlock.boundingRect (CBlock.blocks s this)))
       (QRectF.width (CBlock.boundingRect (CBlock.blocks s this)))).
Proof.
  intros Hb Hx0 Hy0 Hw Hlt.
  destruct (wheel_vertical_shape this delta s Hb) as [E _].
  unfold CBlock.boundingRect in *. rewrite E. clear E.
  set (p := CBlock.m_PolyShape (CBlock.blocks s this)) in *.
  pose proof (wheelShape_boundingRect delta p) as R.
  destruct (delta <? 0)%Z.
  - pose proof (truncated_whole _ Hw (dim_nonneg AxisY p) Hlt) as Ht.
    destruct R as (Rx & Ry & Rw & Rh).
    cbn [QRectF.x QRectF.y QRectF.width QRectF.height] in *.
    unfold sameRect. cbn [QRectF.x QRectF.y QRectF.width QRectF.height].
    repeat split; try assumption; lra.
  - pose proof (truncated_whole _ Hw (dim_nonneg AxisX p) Hlt) as Ht.
    destruct R as (Rx & Ry & Rw & Rh).
    cbn [QRectF.x QRectF.y QRectF.width QRectF.height] in *.
    unfold sameRect. cbn [QRectF.x QRectF.y QRectF.width QRectF.height].
    repeat split; try assumption; lra.
Qed.
End Anchoring.

(* ------------------------------------------------------------------ *)
(** ** Closed outlines stay closed *)

Lemma qFuzzyIsNull_comp a b : a == b -> qFuzzyIsNull a = qFuzzyIsNull b.
Proof.
  intros E. unfold qFuzzyIsNull.
  apply Qleb_comp; [rewrite E; reflexivity | reflexivity].
Qed.

Lemma qFuzzyIsNull_opp a : qFuzzyIsNull (- a) = qFuzzyIsNull a.
Proof. unfold qFuzzyIsNull. rewrite Qabs_opp. reflexivity. Qed.

Lemma last_map {A B} (f : A -> B) (l : list A) (d : A) :
  last (map f l) (f d) = f (last l d).
Proof.
  induction l as [|a l IH]; [reflexivity|].
  destruct l as [|a' l]; [reflexivity|]. exact IH.
Qed.

Lemma isClosed_map (G : QPointF.t -> QPointF.t) (p : QPolygonF.t) :
  (forall a b, QPointF.eqb (G a) (G b) = QPointF.eqb a b) ->
  QPolygonF.isClosed (map G p) = QPolygonF.isClosed p.
Proof.
  intros HG. destruct p as [|v p]; [reflexivity|].
  unfold QPolygonF.isClosed.
  change (map G (v :: p)) with (G v :: map G p) at 1.
  cbv iota beta.
  change (G v :: map G p) with (map G (v :: p)).
  rewrite last_map. apply HG.
Qed.

Lemma eqb_flipped (G : QPointF.t -> QPointF.t) (c d : qreal) :
  (forall v, QPointF.x (G v) == c - QPointF.x v /\
             QPointF.y (G v) == QPointF.y v + d) ->
  forall a b, QPointF.eqb (G a) (G b) = QPointF.eqb a b.
Proof.
  intros HG a b. unfold QPointF.eqb.
  destruct (HG a) as [Ha1 Ha2], (HG b) as [Hb1 Hb2].
  rewrite (qFuzzyIsNull_comp (QPointF.x (G a) - QPointF.x (G b))
             (- (QPointF.x a - QPointF.x b))) by lra.
  rewrite (qFuzzyIsNull_comp (QPointF.y (G a) - QPointF.y (G b))
             (QPointF.y a - QPointF.y b)) by lra.
  rewrite qFuzzyIsNull_opp. reflexivity.
Qed.

Lemma eqb_quarterL (G : QPointF.t -> QPointF.t) (t : qreal) :
  (forall v, QPointF.same (G v) (quarterL t v)) ->
  forall a b, QPointF.eqb (G a) (G b) = QPointF.eqb a b.
Proof.
  intros HG a b. unfold QPointF.eqb.
  destruct (HG a) as [Ha1 Ha2], (HG b) as [Hb1 Hb2]. cbn in Ha1, Ha2, Hb1, Hb2.
  rewrite (qFuzzyIsNull_comp (QPointF.x (G a) - QPointF.x (G b))
             (- (QPointF.y a - QPointF.y b))) by lra.
  rewrite (qFuzzyIsNull_comp (QPointF.y (G a) - QPointF.y (G b))
             (QPointF.x a - QPointF.x b)) by lra.
  rewrite qFuzzyIsNull_opp. apply andb_comm.
Qed.

Lemma eqb_quarterR (G : QPointF.t -> QPointF.t) (t : qreal) :
  (forall v, QPointF.same (G v) (quarterR t v)) ->
  forall a b, QPointF.eqb (G a) (G b) = QPointF.eqb a b.
Proof.
  intros HG a b. unfold QPointF.eqb.
  destruct (HG a) as [Ha1 Ha2], (HG b) as [Hb1 Hb2]. cbn in Ha1, Ha2, Hb1, Hb2.
  rewrite (qFuzzyIsNull_comp (QPointF.x (G a) - QPointF.x (G b))
             (QPointF.y a - QPointF.y b)) by lra.
  rewrite (qFuzzyIsNull_comp (QPointF.y (G a) - QPointF.y (G b))
             (- (QPointF.x a - QPointF.x b))) by lra.
  rewrite qFuzzyIsNull_opp. apply andb_comm.
Qed.

Section Closed.
Context `{QtServices CBlock.t}.

(** X9.  Neither a flip nor a wheel turn adds or drops a vertex, and
    neither opens or closes an outline that has its vertices on whole
    cells: on a block that is not a barrier the number of vertices is the
    same before and after a secondary-button press and before and after a
    vertical wheel gesture, and so is [isClosed] for such an outline. *)
Theorem reshaping_keeps_outline_closed this delta s :
  CBlock.m_bBarrier (CBlock.blocks s this) = false ->
  (length
     (CBlock.m_PolyShape
        (CBlock.blocks (CBlock.mousePressEvent this RightButton s) this)) =
   length (CBlock.m_PolyShape (CBlock.blocks s this)) /\
   length
     (CBlock.m_PolyShape
        (CBlock.blocks (CBlock.wheelEvent this Vertical delta s) this)) =
   length (CBlock.m_PolyShape (CBlock.blocks s this))) /\
  (onCells (CBlock.m_PolyShape (CBlock.blocks s this)) ->
   QPolygonF.isClosed
     (CBlock.m_PolyShape
        (CBlock.blocks (CBlock.mousePressEvent this RightButton s) this)) =
   QPolygonF.isClosed (CBlock.m_PolyShape (CBlock.blocks s this)) /\
   QPolygonF.isClosed
     (CBlock.m_PolyShape
        (CBlock.blocks (CBlock.wheelEvent this Vertical delta s) this)) =
   QPolygonF.isClosed (CBlock.m_PolyShape (CBlock.blocks s this))).
Proof.
  intros Hb.
  destruct (press_right_shape this s Hb) as [Ef _].
  destruct (wheel_vertical_shape this delta s Hb) as [Ew _].
  rewrite Ef, Ew. clear Ef Ew.
  set (p := CBlock.m_PolyShape (CBlock.blocks s this)).
  destruct (flipShape_as_map p) as (G & EG & HG).
  assert (Hwheel : exists W,
            wheelShape delta p = map W p /\
            forall a b, QPointF.eqb (W a) (W b) = QPointF.eqb a b).
  { destruct (delta <? 0)%Z eqn:Ed.
    - apply Z.ltb_lt in Ed.
      destruct (wheelShape_neg delta p p _ Ed (Tracks_start p))
        as (W & EW & HW).
      exists W. split; [exact EW|]. exact (eqb_quarterL W _ HW).
    - apply Z.ltb_ge in Ed.
      destruct (wheelShape_nonneg delta p p _ Ed (Tracks_start p))
        as (W & EW & HW).
      exists W. split; [exact EW|]. exact (eqb_quarterR W _ HW). }
  destruct Hwheel as (W & EW & HW).
  rewrite EG, EW. split.
  - split; apply length_map.
  - intros _. split; apply isClosed_map.
    + exact (eqb_flipped G _ 0 HG).
    + exact HW.
Qed.
End Closed.

(* ------------------------------------------------------------------ *)
(** ** The list as a set *)

Section Entries.
Context `{QtServices CBlock.t}.

(** X10.  The answer of the loop of [checkCollision] depends on which
    blocks the list holds, not on their order nor on how often each is
    entered: two lists with the same entries give the same answer. *)
Theorem collision_answer_ignores_order_and_repetition
    (store : CBlock.ptr -> CBlock.t) (self : CBlock.t)
    (thisPath : QPainterPath.t) (l l' : list CBlock.ptr) :
  (forall p, In p l <-> In p l') ->
  CBlock.scanBlocks store self thisPath l =
  CBlock.scanBlocks store self thisPath l'.
Proof.
  intros Hset.
  destruct (CBlock.scanBlocks store self thisPath l) eqn:E.
  - symmetry. apply scanBlocks_true_iff. apply scanBlocks_true_iff in E.
    destruct E as (p & Hp & Hc). exists p. split; [apply Hset; exact Hp | exact Hc].
  - symmetry. apply scanBlocks_false_iff. intros p Hp.
    apply (proj1 (scanBlocks_false_iff store self thisPath l) E).
    apply Hset. exact Hp.
Qed.

(* ------------------------------------------------------------------ *)
(** ** What is painted *)

End Entries.

(** X12.  [paint] computes the pen width [1/m_nGrid] in integers: the pen
    it draws the outline with has width 1 on a grid of one pixel and width
    0 on every larger grid. *)
Theorem paint_pen_width_vanishes_above_one (bDEBUG : bool) (b : CBlock.t) :
  (1 <= CBlock.m_nGrid b)%Z ->
  In (setPen (if (CBlock.m_nGrid b =? 1)%Z then 1 else 0)%Z) (paint bDEBUG b) /\
  forall w, In (setPen w) (paint bDEBUG b) ->
            w = (if (CBlock.m_nGrid b =? 1)%Z then 1 else 0)%Z.
Proof.
  intros Hg.
  assert (Hw : penWidth b = (if (CBlock.m_nGrid b =? 1)%Z then 1 else 0)%Z).
  { unfold penWidth. destruct (CBlock.m_nGrid b =? 1)%Z eqn:E.
    - apply Z.eqb_eq in E. rewrite E. reflexivity.
    - apply Z.eqb_neq in E. apply Z.quot_small. lia. }
  unfold paint. cbv zeta. rewrite Hw. split.
  - right. right. left. reflexivity.
  - intros w Hin. apply in_app_or in Hin. destruct Hin as [Hin | Hin].
    + cbn in Hin. destruct Hin as [Hd | [Hd | [Hd | [Hd | []]]]];
        try discriminate. injection Hd as <-. reflexivity.
    + destruct bDEBUG; cbn in Hin; [destruct Hin as [Hd | []]; discriminate
                                   | destruct Hin].
Qed.

(* ------------------------------------------------------------------ *)
(** ** The further statements at concrete scenes *)


Lemma press_brings_block_to_front_witness :
  CBlock.zValue
    (CBlock.blocks (CBlock.mousePressEvent 0%nat LeftButton Examples.scene)
       0%nat) = 8 /\
  CBlock.zValue
    (CBlock.blocks (CBlock.mousePressEvent 0%nat LeftButton Examples.scene)
       1%nat) < 8.
Proof.
  destruct (press_brings_block_to_front 0%nat Examples.scene eq_refl)
    as (E & Hlow & _).
  - vm_compute. reflexivity.
  - split; [exact E|].
    destruct (Hlow 1%nat) as [_ Hlt].
    + right. left. reflexivity.
    + discriminate.
    + vm_compute. discriminate.
    + rewrite E in Hlt. exact Hlt.
Defined.

Lemma drag_ends_at_start_or_snapped_drop_witness :
  CBlock.m_bMousePressed
    (CBlock.blocks
       (@CBlock.mouseReleaseEvent Box.services 0%nat LeftButton
          (dragTo 0%nat (Examples.pt 52 3)
             (CBlock.mousePressEvent 0%nat LeftButton Examples.scene)))
       0%nat) = false.
Proof.
  refine (proj1 (proj2 (proj2
    (@drag_ends_at_start_or_snapped_drop Box.services 0%nat (Examples.pt 52 3)
       Examples.scene eq_refl _ eq_refl _ _)))).
  - vm_compute. split; [reflexivity | discriminate].
  - vm_compute. discriminate.
  - vm_compute. discriminate.
Defined.

Lemma rescaleBlock_keeps_grid_cell_witness :
  CBlock.pos (CBlock.rescaleBlock 20 Examples.blockB) = cell 20 5 0.
Proof.
  refine (proj1 (rescaleBlock_keeps_grid_cell 20 5 0 Examples.blockB
                   _ _ eq_refl _ _ _ _)); vm_compute;
    first [reflexivity | split; discriminate].
Defined.

Lemma constructed_block_sits_on_grid_witness :
  CBlock.snapToGrid Examples.blockB (CBlock.pos Examples.blockB) =
  CBlock.pos Examples.blockB.
Proof.
  refine (proj2 (constructed_block_sits_on_grid 2 Examples.unitSquare 10
                   Examples.registry 5 0 false _ _ _)); vm_compute;
    first [reflexivity | split; discriminate].
Defined.

Lemma snapToGrid_lands_on_nearest_grid_point_witness :
  exists i j : Z,
    CBlock.snapToGrid Examples.blockA (Examples.pt 52 3) = cell 10 i j /\
    Qabs (QPointF.x (CBlock.snapToGrid Examples.blockA (Examples.pt 52 3)) - 52)
      <= inject_Z 10 / 2 /\
    Qabs (QPointF.y (CBlock.snapToGrid Examples.blockA (Examples.pt 52 3)) - 3)
      <= inject_Z 10 / 2.
Proof.
  destruct (snapToGrid_lands_on_nearest_grid_point Examples.blockA
              (Examples.pt 52 3)) as (i & j & E & Hx & Hy).
  - vm_compute. split; [reflexivity | discriminate].
  - vm_compute. discriminate.
  - vm_compute. discriminate.
  - exists i, j. split; [exact E|]. split.
    + apply Hx. exists 52%Z. reflexivity.
    + apply Hy. exists 3%Z. reflexivity.
Defined.

Lemma flip_keeps_bounding_rectangle_witness :
  sameRect
    (CBlock.boundingRect
       (CBlock.blocks (CBlock.mousePressEvent 5%nat RightButton Examples.scene)
          5%nat))
    (CBlock.boundingRect (CBlock.blocks Examples.scene 5%nat)).
Proof.
  refine (proj2 (proj2 (flip_keeps_bounding_rectangle 5%nat Examples.scene
                          eq_refl) _) _).
  - apply onCellsb_sound. vm_compute. reflexivity.
  - vm_compute. reflexivity.
Defined.

Lemma wheel_keeps_outline_anchored_witness :
  sameRect
    (CBlock.boundingRect
       (CBlock.blocks
          (@CBlock.wheelEvent Box.services 5%nat Vertical (-120) Examples.scene)
          5%nat))
    (QRectF.mk 0 0 2 1).
Proof.
  refine (@wheel_keeps_outline_anchored Box.services 5%nat (-120)
            Examples.scene eq_refl _ _ _ _).
  - vm_compute. reflexivity.
  - vm_compute. reflexivity.
  - exists 2%Z. vm_compute. reflexivity.
  - vm_compute. reflexivity.
Defined.

Lemma reshaping_keeps_outline_closed_witness :
  QPolygonF.isClosed
    (CBlock.m_PolyShape
       (CBlock.blocks (CBlock.mousePressEvent 5%nat RightButton Examples.scene)
          5%nat)) = true.
Proof.
  rewrite (proj1 (proj2 (@reshaping_keeps_outline_closed Box.services 5%nat 0
                           Examples.scene eq_refl)
                    ltac:(apply onCellsb_sound; vm_compute; reflexivity))).
  vm_compute. reflexivity.
Defined.

Lemma collision_answer_ignores_order_and_repetition_witness :
  @CBlock.scanBlocks Box.services Examples.store Examples.blockA Examples.onB
    [1%nat; 0%nat] =
  @CBlock.scanBlocks Box.services Examples.store Examples.blockA Examples.onB
    [0%nat; 1%nat; 1%nat].
Proof.
  apply collision_answer_ignores_order_and_repetition.
  intros p. cbn. tauto.
Defined.

Lemma paint_pen_width_vanishes_above_one_witness :
  In (setPen 0) (paint false Examples.blockA).
Proof.
  exact (proj1 (paint_pen_width_vanishes_above_one false Examples.blockA
                  ltac:(vm_compute; discriminate))).
Defined.
